(** * Media recognition: fingerprinting, catalogue and matcher

    A shallow embedding of the Python sources

      - [fingerprint.py]    ([AudioFingerprinter]: peak extraction and hashing),
      - [database.py]       ([FingerprintDatabase]: the two SQLite tables),
      - [build_database.py] (the bulk ingestion loop),
      - [matcher.py]        ([AudioMatcher]: lookup, scoring, threshold),

    together with the properties the specification states about them.

    Conventions.  Python and NumPy integers are [Z] (no claim reaches the
    64-bit range); positions in lists are [nat].  Spectrogram magnitudes
    are finite floats that the code only compares ([max], [==], [== 0],
    [>]); they are embedded as the rationals [Q] they denote, with [Qeq]
    for numeric equality.  SHA-1 ([hashlib]) is a parameter of the
    development; the audio decoder and the STFT ([librosa]) are outside of
    it: the embedding starts at the magnitude spectrogram. *)

From stdpp Require Import base list strings gmap pretty.
From stdpp Require Import sorting.
From Stdlib Require Import Ascii.
From Stdlib Require Import ZArith QArith Lia Sorted Permutation.
Close Scope Q_scope.
Open Scope Z_scope.

(** ** Python built-ins used by the sources *)

(** [range(lo, hi)] over list positions. *)
Definition py_range (lo hi : nat) : list nat := seq lo (hi - lo).

(** The longest prefix whose elements pass [f]: what a [for] loop has
    processed when it leaves through [break] at the first failure. *)
Fixpoint take_while {A : Type} (f : A → bool) (l : list A) : list A :=
  match l with
  | [] => []
  | x :: l' => if f x then x :: take_while f l' else []
  end.

(** ** NumPy arrays and the SciPy filters used by [find_peaks] *)

(** A two-dimensional array: its shape and its cells.  Only the cells
    [0 <= i < nrows], [0 <= j < ncols] belong to the array. *)
Record ndarray (A : Type) : Type := {
  nrows : nat;
  ncols : nat;
  cell : Z → Z → A
}.
Arguments nrows {A} _.
Arguments ncols {A} _.
Arguments cell {A} _ _ _.

Definition in_arrayb {A : Type} (a : ndarray A) (i j : Z) : bool :=
  (0 <=? i) && (i <? Z.of_nat (nrows a)) &&
  (0 <=? j) && (j <? Z.of_nat (ncols a)).

(** The array with the given rows (read with the width of the first). *)
Definition of_rows {A : Type} (d : A) (rows : list (list A)) : ndarray A :=
  {| nrows := length rows;
     ncols := length (hd [] rows);
     cell i j := nth (Z.to_nat j) (nth (Z.to_nat i) rows []) d |}.

(** Elementwise operations ([a == b], [a != b], [a == 0]). *)
Definition map_cells {A B : Type} (f : A → B) (a : ndarray A) : ndarray B :=
  {| nrows := nrows a; ncols := ncols a; cell i j := f (cell a i j) |}.

Definition zip_cells {A B C : Type} (f : A → B → C)
    (a : ndarray A) (b : ndarray B) : ndarray C :=
  {| nrows := nrows a; ncols := ncols a;
     cell i j := f (cell a i j) (cell b i j) |}.

(** [np.array(np.where(mask)).T]: the index pairs of the true cells, in
    row-major order. *)
Definition np_where (mask : ndarray bool) : list (Z * Z) :=
  flat_map
    (λ i, flat_map
            (λ j, if cell mask (Z.of_nat i) (Z.of_nat j)
                  then [(Z.of_nat i, Z.of_nat j)] else [])
            (seq 0 (ncols mask)))
    (seq 0 (nrows mask)).

Module Ndimage.

(** [iterate_structure(generate_binary_structure(2, 1), iterations)]: the
    3x3 cross dilated with itself, which is the diamond
    [|i - r| + |j - r| <= r] in a [(2r+1) x (2r+1)] array, [r] being
    [iterations], and the cross itself ([r = 1]) when [iterations < 2]. *)
Definition iterate_cross (iterations : nat) : ndarray bool :=
  let r := Nat.max 1 iterations in
  {| nrows := 2 * r + 1;
     ncols := 2 * r + 1;
     cell i j := Z.abs (i - Z.of_nat r) + Z.abs (j - Z.of_nat r) <=? Z.of_nat r |}.

(** How a filter reads beyond the border: ['reflect'] is
    [(d c b a | a b c d | d c b a)], ['constant'] is
    [(k k k k | a b c d | k k k k)] with [k = cval]. *)
Inductive mode : Type := reflect | constant.

Definition reflect_index (len : nat) (i : Z) : Z :=
  let m := i mod (2 * Z.of_nat len) in
  if m <? Z.of_nat len then m else 2 * Z.of_nat len - 1 - m.

Definition extended {A : Type} (md : mode) (cval : A) (a : ndarray A)
    (i j : Z) : A :=
  match md with
  | reflect => cell a (reflect_index (nrows a) i) (reflect_index (ncols a) j)
  | constant => if in_arrayb a i j then cell a i j else cval
  end.

(** The offsets, relative to the centre, of the true cells of a footprint. *)
Definition footprint_offsets (footprint : ndarray bool) : list (Z * Z) :=
  map (λ ij : Z * Z,
         (ij.1 - Z.of_nat (nrows footprint / 2),
          ij.2 - Z.of_nat (ncols footprint / 2)))
      (np_where footprint).

(** [maximum_filter(input, footprint=footprint, mode=md, cval=cval)],
    for the order whose binary maximum is [max]. *)
Definition maximum_filter {A : Type} (max : A → A → A) (input : ndarray A)
    (footprint : ndarray bool) (md : mode) (cval : A) : ndarray A :=
  {| nrows := nrows input;
     ncols := ncols input;
     cell i j :=
       match map (λ d : Z * Z, extended md cval input (i + d.1) (j + d.2))
                 (footprint_offsets footprint) with
       | [] => cval
       | v :: vs => foldl max v vs
       end |}.

End Ndimage.

(** The larger of two magnitudes. *)
Definition Qmaximum (a b : Q) : Q := if Qle_bool a b then b else a.

(** * fingerprint.py *)

Module Fingerprint.

(** The attributes [__init__] sets on an [AudioFingerprinter]. *)
Record AudioFingerprinter : Type := {
  sample_rate : Z;
  n_fft : Z;
  hop_length : Z;
  min_amplitude : Q;
  peak_neighborhood_size : nat;
  fan_value : nat;
  time_window : Z
}.

(** [AudioFingerprinter.__init__(self, sample_rate=22050)]. *)
Definition init (sample_rate : Z) : AudioFingerprinter :=
  {| sample_rate := sample_rate;
     n_fft := 2048;
     hop_length := 512;
     min_amplitude := 10%Q;
     peak_neighborhood_size := 20;
     fan_value := 5;
     time_window := 200 |}.

Definition default : AudioFingerprinter := init 22050.

(** A row [freq_idx, time_idx] of the peaks array. *)
Definition peak : Type := Z * Z.

Definition freq_of (p : peak) : Z := p.1.
Definition time_of (p : peak) : Z := p.2.

(** ** find_peaks *)

(** [AudioFingerprinter.find_peaks(self, spectrogram)]: rows are
    frequency bins, columns are frames. *)
Definition find_peaks (self : AudioFingerprinter) (spectrogram : ndarray Q)
    : list peak :=
  let neighborhood := Ndimage.iterate_cross (peak_neighborhood_size self) in
  let local_max :=
    zip_cells Qeq_bool
      (Ndimage.maximum_filter Qmaximum spectrogram neighborhood
         Ndimage.reflect 0%Q)
      spectrogram in
  let background := map_cells (λ x, Qeq_bool x 0%Q) spectrogram in
  let eroded_background :=
    Ndimage.maximum_filter orb background neighborhood
      Ndimage.constant false in
  let detected_peaks :=
    zip_cells (λ a b, negb (Bool.eqb a b)) local_max eroded_background in
  let amps :=
    map (λ ij : Z * Z, cell spectrogram ij.1 ij.2) (np_where detected_peaks) in
  let peaks := np_where detected_peaks in
  map snd
    (List.filter (λ ap : Q * peak, negb (Qle_bool ap.1 (min_amplitude self)))
       (combine amps peaks)).

(** The cells of [local_max] and of [eroded_background]. *)
Definition local_max_at (self : AudioFingerprinter) (M : ndarray Q)
    (f t : Z) : bool :=
  Qeq_bool
    (cell (Ndimage.maximum_filter Qmaximum M
             (Ndimage.iterate_cross (peak_neighborhood_size self))
             Ndimage.reflect 0%Q) f t)
    (cell M f t).

Definition eroded_background_at (self : AudioFingerprinter) (M : ndarray Q)
    (f t : Z) : bool :=
  cell (Ndimage.maximum_filter orb (map_cells (λ x, Qeq_bool x 0%Q) M)
          (Ndimage.iterate_cross (peak_neighborhood_size self))
          Ndimage.constant false) f t.

(** *** The peak extractor as the specification words it *)

Definition in_array {A : Type} (a : ndarray A) (i j : Z) : Prop :=
  0 ≤ i < Z.of_nat (nrows a) ∧ 0 ≤ j < Z.of_nat (ncols a).

(** The radius of the diamond [find_peaks] builds. *)
Definition radius (self : AudioFingerprinter) : Z :=
  Z.of_nat (Nat.max 1 (peak_neighborhood_size self)).

(** [(g, u)] lies in the diamond centred at [(f, t)]. *)
Definition in_footprint (self : AudioFingerprinter) (f t g u : Z) : Prop :=
  Z.abs (g - f) + Z.abs (u - t) ≤ radius self.

(** [M[f, t] = max(M over the footprint centred at (f, t))]. *)
Definition footprint_maximum (self : AudioFingerprinter) (M : ndarray Q)
    (f t : Z) : Prop :=
  ∀ g u, in_array M g u → in_footprint self f t g u →
         (cell M g u <= cell M f t)%Q.

(** [M[f, t]] is the strict maximum: larger than every other cell of the
    footprint. *)
Definition strict_footprint_maximum (self : AudioFingerprinter)
    (M : ndarray Q) (f t : Z) : Prop :=
  ∀ g u, in_array M g u → in_footprint self f t g u → (g, u) ≠ (f, t) →
         (cell M g u < cell M f t)%Q.

(** The maximum filter over the is-zero mask matches [(f, t)]: some cell
    of the footprint holds exactly zero. *)
Definition zero_in_footprint (self : AudioFingerprinter) (M : ndarray Q)
    (f t : Z) : Prop :=
  ∃ g u, in_array M g u ∧ in_footprint self f t g u ∧ (cell M g u == 0)%Q.

(** A peak as the contract describes it: the strict maximum of its
    footprint, above the amplitude floor, with no zero in the footprint. *)
Definition stated_peak (self : AudioFingerprinter) (M : ndarray Q)
    (f t : Z) : Prop :=
  in_array M f t ∧
  strict_footprint_maximum self M f t ∧
  (min_amplitude self < cell M f t)%Q ∧
  ¬ zero_in_footprint self M f t.

(** Row-major order of index pairs. *)
Definition row_major_lt (p q : peak) : Prop :=
  freq_of p < freq_of q ∨ (freq_of p = freq_of q ∧ time_of p < time_of q).

(** ** generate_hashes *)

(** [peaks[peaks[:, 1].argsort()]]: the rows reordered by ascending
    [time_idx].  NumPy leaves the order among rows of equal [time_idx] to
    the sorting routine; the embedding keeps their input order.  The
    results below use only that the outcome is ascending in [time_idx] and
    a rearrangement of the input. *)
Fixpoint insert_by_time (p : peak) (l : list peak) : list peak :=
  match l with
  | [] => [p]
  | q :: l' =>
      if time_of p <=? time_of q then p :: q :: l'
      else q :: insert_by_time p l'
  end.

Definition sort_by_time (peaks : list peak) : list peak :=
  foldr insert_by_time [] peaks.

(** What one round of the inner loop has at hand when it emits. *)
Record landmark : Type := Landmark {
  lm_freq1 : Z;
  lm_freq2 : Z;
  lm_time_delta : Z;
  lm_time1 : Z
}.

(** [f"{freq1}|{freq2}|{time_delta}"]. *)
Definition hash_string (freq1 freq2 time_delta : Z) : string :=
  pretty freq1 +:+ "|" +:+ pretty freq2 +:+ "|" +:+ pretty time_delta.

Section Pairing.
Context {A : Type}.
(** What [fingerprints.append(...)] receives, as a function of
    [freq1], [freq2], [time_delta] and [time1]. *)
Variable emit : Z → Z → Z → Z → A.
Variable self : AudioFingerprinter.

(** [for j in range(...)]: the body, with [break] leaving the loop. *)
Fixpoint inner_loop (peaks : list peak) (freq1 time1 : Z)
    (js : list nat) (fingerprints : list A) : list A :=
  match js with
  | [] => fingerprints
  | j :: js' =>
      let '(freq2, time2) := nth j peaks (0, 0) in
      let time_delta := time2 - time1 in
      if time_delta >? time_window self then fingerprints
      else inner_loop peaks freq1 time1 js'
             (fingerprints ++ [emit freq1 freq2 time_delta time1])
  end.

(** [for i in range(len(peaks))]. *)
Fixpoint outer_loop (peaks : list peak) (idxs : list nat)
    (fingerprints : list A) : list A :=
  match idxs with
  | [] => fingerprints
  | i :: idxs' =>
      let '(freq1, time1) := nth i peaks (0, 0) in
      outer_loop peaks idxs'
        (inner_loop peaks freq1 time1
           (py_range (i + 1) (Nat.min (i + fan_value self) (length peaks)))
           fingerprints)
  end.

Definition pair_peaks (peaks : list peak) : list A :=
  let peaks := sort_by_time peaks in
  outer_loop peaks (py_range 0 (length peaks)) [].
End Pairing.

(** A posting [(hash_value, int(time1))]. *)
Definition posting : Type := string * Z.

Section Hasher.
(** [lambda s: hashlib.sha1(s.encode('utf-8')).hexdigest()]. *)
Variable sha1_hexdigest : string → string.

Definition posting_of (lm : landmark) : posting :=
  (sha1_hexdigest
     (hash_string (lm_freq1 lm) (lm_freq2 lm) (lm_time_delta lm)),
   lm_time1 lm).

(** [AudioFingerprinter.generate_hashes(self, peaks)]. *)
Definition generate_hashes (self : AudioFingerprinter)
    (peaks : list peak) : list posting :=
  pair_peaks
    (λ freq1 freq2 time_delta time1,
       (sha1_hexdigest (hash_string freq1 freq2 time_delta), time1))
    self peaks.
End Hasher.

(** The same traversal, keeping the triple that is hashed. *)
Definition landmarks (self : AudioFingerprinter) (peaks : list peak)
    : list landmark :=
  pair_peaks Landmark self peaks.

(** *** The hasher as the specification words it *)

(** The peaks the inner loop visits for the anchor at position [i] of the
    time-sorted list: those at the positions of
    [range(i + 1, min(i + fan_value, len(peaks)))]. *)
Definition candidates (self : AudioFingerprinter) (peaks : list peak)
    (i : nat) : list peak :=
  map (λ j, nth j peaks (0, 0))
      (py_range (i + 1) (Nat.min (i + fan_value self) (length peaks))).

Definition within_window (self : AudioFingerprinter) (anchor target : peak)
    : bool :=
  negb (time_of target - time_of anchor >? time_window self).

(** The targets paired with that anchor: the candidates up to, and
    without, the first one beyond the time window. *)
Definition targets (self : AudioFingerprinter) (peaks : list peak)
    (i : nat) : list peak :=
  take_while (within_window self (nth i peaks (0, 0)))
             (candidates self peaks i).

Definition landmark_of (anchor target : peak) : landmark :=
  {| lm_freq1 := freq_of anchor;
     lm_freq2 := freq_of target;
     lm_time_delta := time_of target - time_of anchor;
     lm_time1 := time_of anchor |}.

Definition anchor_landmarks (self : AudioFingerprinter) (peaks : list peak)
    (i : nat) : list landmark :=
  map (landmark_of (nth i peaks (0, 0))) (targets self peaks i).

(** Ascending [time_idx]. *)
Definition time_le (p q : peak) : Prop := time_of p ≤ time_of q.

(** ** fingerprint_file *)

(** [AudioFingerprinter.fingerprint_file], from the spectrogram on: the
    decoder and the STFT come before. *)
Definition fingerprint_spectrogram (sha1_hexdigest : string → string)
    (self : AudioFingerprinter) (spectrogram : ndarray Q) : list posting :=
  let peaks := find_peaks self spectrogram in
  let fingerprints := generate_hashes sha1_hexdigest self peaks in
  fingerprints.

End Fingerprint.

(** * database.py *)

Module Database.
Import Fingerprint.

(** A row of table [media]. *)
Record media_row : Type := {
  m_id : Z;
  m_title : string;
  m_type : string;
  m_season : option Z;
  m_episode : option Z;
  m_file_path : string;
  m_fingerprint_count : Z
}.

(** A row of table [fingerprints]. *)
Record fingerprint_row : Type := {
  f_id : Z;
  f_hash : string;
  f_time_offset : Z;
  f_media_id : Z
}.

(** The store behind a [FingerprintDatabase]: both tables in rowid order
    and, for each [AUTOINCREMENT] key, the largest id handed out. *)
Record FingerprintDatabase : Type := {
  media : list media_row;
  fingerprints : list fingerprint_row;
  media_seq : Z;
  fingerprints_seq : Z
}.

(** A fresh file after [_create_tables]. *)
Definition create : FingerprintDatabase :=
  {| media := []; fingerprints := []; media_seq := 0; fingerprints_seq := 0 |}.

(** [add_media]: the [INSERT] succeeds unless [file_path] is taken
    ([UNIQUE]); then [IntegrityError] is caught and the id of the row
    holding that path is returned. *)
Definition add_media (self : FingerprintDatabase)
    (title media_type file_path : string) (season episode : option Z)
    : Z * FingerprintDatabase :=
  match List.find (λ r, String.eqb (m_file_path r) file_path) (media self) with
  | None =>
      let media_id := media_seq self + 1 in
      (media_id,
       {| media := media self ++
                   [{| m_id := media_id; m_title := title;
                       m_type := media_type; m_season := season;
                       m_episode := episode; m_file_path := file_path;
                       m_fingerprint_count := 0 |}];
          fingerprints := fingerprints self;
          media_seq := media_id;
          fingerprints_seq := fingerprints_seq self |})
  | Some r => (m_id r, self)
  end.

(** [UPDATE media SET fingerprint_count = ? WHERE id = ?]. *)
Definition set_fingerprint_count (count media_id : Z) (r : media_row)
    : media_row :=
  if m_id r =? media_id then
    {| m_id := m_id r; m_title := m_title r; m_type := m_type r;
       m_season := m_season r; m_episode := m_episode r;
       m_file_path := m_file_path r; m_fingerprint_count := count |}
  else r.

(** [add_fingerprints]: the batch [INSERT], then the [UPDATE]. *)
Definition add_fingerprints (self : FingerprintDatabase) (media_id : Z)
    (fps : list posting) : FingerprintDatabase :=
  let data := map (λ fp : posting, (fp.1, fp.2, media_id)) fps in
  {| media :=
       map (set_fingerprint_count (Z.of_nat (length fps)) media_id)
           (media self);
     fingerprints :=
       fingerprints self ++
       imap (λ k (d : string * Z * Z),
               {| f_id := fingerprints_seq self + 1 + Z.of_nat k;
                  f_hash := d.1.1; f_time_offset := d.1.2;
                  f_media_id := d.2 |})
            data;
     media_seq := media_seq self;
     fingerprints_seq := fingerprints_seq self + Z.of_nat (length fps) |}.

(** [','.join('?' * len(query_hashes))]. *)
Definition placeholders (query_hashes : list string) : string :=
  String.concat "," (replicate (length query_hashes) "?").

(** The statement [search_fingerprints] sends (layout aside). *)
Definition search_statement (query_hashes : list string) : string :=
  "SELECT media_id, hash, time_offset FROM fingerprints WHERE hash IN ("
  +:+ placeholders query_hashes +:+ ")".

(** The number of [?] parameters of a statement. *)
Fixpoint count_placeholders (query : string) : nat :=
  match query with
  | EmptyString => 0%nat
  | String c rest =>
      ((if Ascii.eqb c "?" then 1 else 0) + count_placeholders rest)%nat
  end.

(** The hash of a row [(media_id, hash, time_offset)]. *)
Definition row_hash (row : Z * string * Z) : string := row.1.2.

(** Rows by ascending hash, compared byte by byte as SQLite compares
    [TEXT]; rows of one hash keep their order. *)
Fixpoint insert_by_hash (row : Z * string * Z) (rows : list (Z * string * Z))
    : list (Z * string * Z) :=
  match rows with
  | [] => [row]
  | r :: rest =>
      if String.leb (row_hash row) (row_hash r) then row :: r :: rest
      else r :: insert_by_hash row rest
  end.

Definition sort_by_hash (rows : list (Z * string * Z))
    : list (Z * string * Z) :=
  foldr insert_by_hash [] rows.



(** The rows [(media_id, hash, time_offset)] of table [fingerprints] whose
    hash is one of [hashes], in rowid order. *)
Definition matching_rows (self : FingerprintDatabase) (hashes : list string)
    : list (Z * string * Z) :=
  map (λ r, (f_media_id r, f_hash r, f_time_offset r))
      (List.filter (λ r, bool_decide (f_hash r ∈ hashes))
                   (fingerprints self)).

(** [self.cursor.execute(query, query_hashes)] and [fetchall()], for the
    statements [search_fingerprints] sends.  sqlite3 raises when the
    bindings are not as many as the [?] of the statement: [None].  SQLite
    takes a list [IN ()] without values as the empty list, so the
    statement built for no hashes runs and selects no row.  The statement
    has no [ORDER BY]: SQLite answers it through the index [idx_hash] of
    [_create_tables], hash by hash in ascending order, the rows of one
    hash in rowid order. *)
Definition execute_search (self : FingerprintDatabase) (query : string)
    (bindings : list string) : option (list (Z * string * Z)) :=
  if (count_placeholders query =? length bindings)%nat
  then Some (sort_by_hash (matching_rows self bindings))
  else None.

(** [search_fingerprints]: the rows [(media_id, hash, time_offset)] whose
    hash is one of [query_hashes], as the statement returns them.  The
    statement it builds has one [?] for each hash, so [execute] does not
    raise (lemma [search_fingerprints_rows]). *)
Definition search_fingerprints (self : FingerprintDatabase)
    (query_hashes : list string) : list (Z * string * Z) :=
  match execute_search self (search_statement query_hashes) query_hashes with
  | Some rows => rows
  | None => []
  end.

(** [get_media_info]: [None] when no row has that id. *)
Definition get_media_info (self : FingerprintDatabase) (media_id : Z)
    : option media_row :=
  List.find (λ r, m_id r =? media_id) (media self).

End Database.

(** * build_database.py *)

Module BuildDatabase.
Import Fingerprint Database.

(** What [parse_filename] returns and [add_media] receives. *)
Record metadata : Type := {
  md_title : string;
  md_type : string;
  md_season : option Z;
  md_episode : option Z
}.

(** An audio file under [data_dir]: its path, its parsed name and what
    [fingerprint_file] yields for it, [None] when that call raises. *)
Record audio_file : Type := {
  af_path : string;
  af_metadata : metadata;
  af_fingerprints : option (list posting)
}.

(** Lines 100-108: [add_media], then [add_fingerprints].  Returns the
    [media_id] as well. *)
Definition ingest (db : FingerprintDatabase) (md : metadata)
    (file_path : string) (fps : list posting) : Z * FingerprintDatabase :=
  let '(media_id, db) :=
    add_media db (md_title md) (md_type md) file_path
              (md_season md) (md_episode md) in
  (media_id, add_fingerprints db media_id fps).

(** The body of the [for] loop: an exception skips the file. *)
Definition process_file (db : FingerprintDatabase) (af : audio_file)
    : FingerprintDatabase :=
  match af_fingerprints af with
  | None => db
  | Some fps => (ingest db (af_metadata af) (af_path af) fps).2
  end.

(** [build_database], on the store it opens. *)
Definition build_database (db : FingerprintDatabase)
    (audio_files : list audio_file) : FingerprintDatabase :=
  foldl process_file db audio_files.

(** The number of rows of [fingerprints] carrying [media_id]. *)
Definition posting_rows (db : FingerprintDatabase) (media_id : Z) : Z :=
  Z.of_nat
    (length (List.filter (λ r, f_media_id r =? media_id) (fingerprints db))).

(** The cached count of each work equals the number of its rows. *)
Definition posting_count_consistent (db : FingerprintDatabase) : Prop :=
  ∀ r, In r (media db) → m_fingerprint_count r = posting_rows db (m_id r).

(** Ids come from the counter: no row is ahead of it. *)
Definition ids_bounded (db : FingerprintDatabase) : Prop :=
  (∀ r, In r (media db) → m_id r ≤ media_seq db) ∧
  (∀ p, In p (fingerprints db) → f_media_id p ≤ media_seq db).

Definition path_taken (db : FingerprintDatabase) (file_path : string)
    : Prop :=
  In file_path (map m_file_path (media db)).

Definition posting_count_consistentb (db : FingerprintDatabase) : bool :=
  forallb (λ r, m_fingerprint_count r =? posting_rows db (m_id r)) (media db).

End BuildDatabase.

(** * matcher.py *)

Module Matcher.
Import Fingerprint Database.

(** ** Python containers and built-ins *)

(** An insertion-ordered [dict] / [defaultdict]: [d[k] = f(d[k])], where
    a missing key first gets the default [dflt] and a place at the end. *)
Fixpoint od_update {K V : Type} (eqb : K → K → bool) (f : V → V) (dflt : V)
    (k : K) (d : list (K * V)) : list (K * V) :=
  match d with
  | [] => [(k, f dflt)]
  | (k', v) :: d' =>
      if eqb k k' then (k', f v) :: d'
      else (k', v) :: od_update eqb f dflt k d'
  end.

(** [max(iterable, key=key)]: the first of the maximal items. *)
Fixpoint max_from {A : Type} (key : A → Z) (best : A) (l : list A) : A :=
  match l with
  | [] => best
  | x :: l' => max_from key (if key best <? key x then x else best) l'
  end.

Definition py_max {A : Type} (key : A → Z) (l : list A) : option A :=
  match l with
  | [] => None
  | x :: l' => Some (max_from key x l')
  end.

(** [max] of an item put in front of a list whose [max] is [current]. *)
Definition challenge {A : Type} (key : A → Z) (x : A) (current : option A)
    : A :=
  match current with
  | None => x
  | Some m => if key x <? key m then m else x
  end.

(** [round(delta / 10)]: the quotient [delta / 10] is a float, and
    [round] takes it to the nearest integer, halves to the even one.  The
    division is correctly rounded and, below [2^50], the floats lie close
    enough for the nearest one to be on the same side of [k + 0.5] as the
    quotient: for [|delta| < 10 * 2^50], which every difference of two
    frame indices is, this is the rounding of the rational [delta / 10]. *)
Definition round_div10 (delta : Z) : Z :=
  let q := delta / 10 in
  let r := delta mod 10 in
  if r <? 5 then q
  else if 5 <? r then q + 1
  else if Z.even q then q else q + 1.

(** [sorted(scores, key=key, reverse=True)]: descending and stable. *)
Fixpoint insert_desc {A : Type} (key : A → Z) (x : A) (l : list A) : list A :=
  match l with
  | [] => [x]
  | y :: l' =>
      if key x <? key y then y :: insert_desc key x l' else x :: y :: l'
  end.

Definition sorted_desc {A : Type} (key : A → Z) (l : list A) : list A :=
  foldr (insert_desc key) [] l.

(** ** _score_matches *)

(** An entry of [scores]. *)
Record score_entry : Type := {
  se_media_id : Z;
  se_score : Z;
  se_time_offset : Z;
  se_total_deltas : Z
}.

(** [{hash_val: time_offset for hash_val, time_offset in query_fingerprints}]:
    a later pair replaces an earlier one with the same hash. *)
Definition query_dict (query_fingerprints : list posting) : gmap string Z :=
  foldl (λ d (fp : posting), <[fp.1 := fp.2]> d) ∅ query_fingerprints.

(** The body of the first loop. *)
Definition record_match (query_fingerprints : list posting)
    (media_matches : list (Z * list Z)) (m : Z * string * Z)
    : list (Z * list Z) :=
  let '(media_id, hash_val, db_time_offset) := m in
  match query_dict query_fingerprints !! hash_val with
  | Some query_time_offset =>
      let time_delta := db_time_offset - query_time_offset in
      od_update Z.eqb (λ l, l ++ [time_delta]) [] media_id media_matches
  | None => media_matches
  end.

(** The first loop: [media_matches], keyed by [media_id] in the order
    the ids first occur. *)
Definition group_matches (query_fingerprints : list posting)
    (db_matches : list (Z * string * Z)) : list (Z * list Z) :=
  foldl (record_match query_fingerprints) [] db_matches.

(** [delta_counts] for one work. *)
Definition count_deltas (time_deltas : list Z) : list (Z * Z) :=
  foldl
    (λ delta_counts delta,
       let delta_bucket := round_div10 delta * 10 in
       od_update Z.eqb (λ c, c + 1) 0 delta_bucket delta_counts)
    [] time_deltas.

(** The body of the second loop. *)
Definition score_media (media_id : Z) (time_deltas : list Z) : score_entry :=
  let delta_counts := count_deltas time_deltas in
  let '(best_delta, score) :=
    match delta_counts with
    | [] => (0, 0) (* not reached: a work is listed with a delta *)
    | e :: es => max_from snd e es
    end in
  {| se_media_id := media_id;
     se_score := score;
     se_time_offset := best_delta;
     se_total_deltas := Z.of_nat (length time_deltas) |}.

(** The entries of [scores] as the second loop appends them. *)
Definition scores_in_order (query_fingerprints : list posting)
    (db_matches : list (Z * string * Z)) : list score_entry :=
  map (λ e : Z * list Z, score_media e.1 e.2)
      (group_matches query_fingerprints db_matches).

(** [AudioMatcher._score_matches]. *)
Definition _score_matches (query_fingerprints : list posting)
    (db_matches : list (Z * string * Z)) : list score_entry :=
  sorted_desc se_score (scores_in_order query_fingerprints db_matches).

(** ** match_clip *)

(** The dictionary [match_clip] returns.  [time_offset_seconds] is the
    rational the float approximates; [time_offset_formatted] is its
    rendering and is left out. *)
Record match_result : Type := {
  r_media_id : Z;
  r_title : string;
  r_type : string;
  r_season : option Z;
  r_episode : option Z;
  r_confidence : Z;
  r_time_offset_seconds : Q;
  r_total_matches : Z
}.

(** The calls [match_clip] makes on [self.db]. *)
Inductive db_call : Type :=
  | call_search_fingerprints (query_hashes : list string)
  | call_get_media_info (media_id : Z).

(** How a call ends: with a value, or with [TypeError] when
    [get_media_info] finds no row and [media_info['title']] is read. *)
Inductive outcome (A : Type) : Type :=
  | returns (a : A)
  | raises_TypeError.
Arguments returns {A} a.
Arguments raises_TypeError {A}.

(** [match_clip] from line 40 on, given the fingerprints of the clip:
    the result and the calls made on the store, in order. *)
Definition match_fingerprints (db : FingerprintDatabase)
    (fingerprinter : AudioFingerprinter)
    (query_fingerprints : list posting) (min_confidence : Z)
    : outcome (option match_result) * list db_call :=
  match query_fingerprints with
  | [] => (returns None, [])
  | _ :: _ =>
      let query_hashes := map fst query_fingerprints in
      let matches := search_fingerprints db query_hashes in
      let calls := [call_search_fingerprints query_hashes] in
      match matches with
      | [] => (returns None, calls)
      | _ :: _ =>
          let scores := _score_matches query_fingerprints matches in
          match py_max se_score scores with
          | None => (returns None, calls) (* [if not scores] *)
          | Some best_match =>
              if se_score best_match <? min_confidence then
                (returns None, calls)
              else
                let calls :=
                  calls ++ [call_get_media_info (se_media_id best_match)] in
                match get_media_info db (se_media_id best_match) with
                | None => (raises_TypeError, calls)
                | Some media_info =>
                    let time_offset_frames := se_time_offset best_match in
                    let time_offset_seconds :=
                      (inject_Z
                         (time_offset_frames * hop_length fingerprinter)
                       / inject_Z (sample_rate fingerprinter))%Q in
                    (returns
                       (Some
                          {| r_media_id := se_media_id best_match;
                             r_title := m_title media_info;
                             r_type := m_type media_info;
                             r_season := m_season media_info;
                             r_episode := m_episode media_info;
                             r_confidence := se_score best_match;
                             r_time_offset_seconds := time_offset_seconds;
                             r_total_matches :=
                               Z.of_nat (length matches) |}),
                     calls)
                end
          end
      end
  end.

(** [AudioMatcher.match_clip(audio_path, min_confidence=5)], the clip
    given by its spectrogram; [self.fingerprinter] is
    [AudioFingerprinter()]. *)
Definition match_clip (sha1_hexdigest : string → string)
    (db : FingerprintDatabase) (spectrogram : ndarray Q)
    (min_confidence : Z) : outcome (option match_result) * list db_call :=
  let query_fingerprints :=
    fingerprint_spectrogram sha1_hexdigest default spectrogram in
  match_fingerprints db default query_fingerprints min_confidence.

(** *** Tie-breaking as the specification words it *)

(** The [scores] entries [match_clip] chooses from. *)
Definition scores_of (db : FingerprintDatabase)
    (query_fingerprints : list posting) : list score_entry :=
  scores_in_order query_fingerprints
    (search_fingerprints db (map fst query_fingerprints)).

(** "If multiple works tie on [score], the one with the lower [work_id]
    wins": no work with the returned score has a lower id than the
    returned one. *)
Definition lower_id_wins : Prop :=
  ∀ db fingerprinter query_fingerprints min_confidence r calls,
    match_fingerprints db fingerprinter query_fingerprints min_confidence
      = (returns (Some r), calls) →
    ∀ e, In e (scores_of db query_fingerprints) →
         se_score e = r_confidence r → r_media_id r ≤ se_media_id e.


(** The distinct elements of a list, in the order of their first
    occurrences. *)
Definition note_seen (seen : list Z) (k : Z) : list Z :=
  if bool_decide (k ∈ seen) then seen else seen ++ [k].

Definition first_seen (l : list Z) : list Z := foldl note_seen [] l.

(** The ids of the rows whose hash the query holds, as returned. *)
Definition matching_ids (query_fingerprints : list posting)
    (db_matches : list (Z * string * Z)) : list Z :=
  map (λ m : Z * string * Z, m.1.1)
      (List.filter
         (λ m : Z * string * Z,
            bool_decide (is_Some (query_dict query_fingerprints !! m.1.2)))
         db_matches).

End Matcher.

(** * database.py, continued *)

Module Reports.
Import Fingerprint Database BuildDatabase.

(** The dictionary [get_statistics] returns. *)
Record statistics : Type := {
  total_media : Z;
  total_fingerprints : Z;
  movies : Z;
  tv_shows : Z
}.

(** [by_type.get(t, 0)], [by_type] being the result of
    [SELECT type, COUNT( * ) FROM media GROUP BY type]. *)
Definition count_by_type (self : FingerprintDatabase) (t : string) : Z :=
  Z.of_nat (length (List.filter (λ r, String.eqb (m_type r) t) (media self))).

(** [FingerprintDatabase.get_statistics]. *)
Definition get_statistics (self : FingerprintDatabase) : statistics :=
  {| total_media := Z.of_nat (length (media self));
     total_fingerprints := Z.of_nat (length (fingerprints self));
     movies := count_by_type self "movie";
     tv_shows := count_by_type self "tv" |}.

(** Every posting row points at a row of [media]. *)
Definition references_ok (db : FingerprintDatabase) : Prop :=
  ∀ p, In p (fingerprints db) →
       ∃ r, In r (media db) ∧ m_id r = f_media_id p.

(** A catalogue in order: ids behind the counter, ids and source paths
    each unique, postings pointing at works. *)
Definition catalogue_ok (db : FingerprintDatabase) : Prop :=
  ids_bounded db ∧
  NoDup (map m_id (media db)) ∧
  NoDup (map m_file_path (media db)) ∧
  references_ok db.

(** The files of a run that were fingerprinted, as [(path, postings)]. *)
Definition fingerprinted (audio_files : list audio_file)
    : list (string * list posting) :=
  flat_map
    (λ af, match af_fingerprints af with
           | Some fps => [(af_path af, fps)]
           | None => []
           end)
    audio_files.

(** The postings of [fps] among the hashes asked for, as rows of
    [media_id]. *)
Definition rows_for (media_id : Z) (query_hashes : list string)
    (fps : list posting) : list (Z * string * Z) :=
  map (λ fp : posting, (media_id, fp.1, fp.2))
      (List.filter (λ fp : posting, bool_decide (fp.1 ∈ query_hashes)) fps).

End Reports.

(** * Strings *)

(** [c in s], for a one-character [c]. *)
Fixpoint contains_char (c : Ascii.ascii) (s : string) : bool :=
  match s with
  | EmptyString => false
  | String a s' => Ascii.eqb a c || contains_char c s'
  end.

(** * app.py *)

(** File names are the bytes of their UTF-8 text.  [lower] changes the
    ASCII capitals only: no other character lower-cases to a letter of
    the three extensions, so the membership test is the one of the
    source. *)
Module App.

Definition ALLOWED_EXTENSIONS : list string := ["mp3"; "wav"; "m4a"].

Definition lower_char (c : ascii) : ascii :=
  let n := nat_of_ascii c in
  if (65 <=? n)%nat && (n <=? 90)%nat then ascii_of_nat (n + 32) else c.

(** [s.lower()]. *)
Fixpoint lower (s : string) : string :=
  match s with
  | EmptyString => EmptyString
  | String c s' => String (lower_char c) (lower s')
  end.

(** Where [rsplit('.', 1)] cuts: the text before the last ['.'] and the
    text after it, [None] when there is no ['.']. *)
Fixpoint last_dot (s : string) : option (string * string) :=
  match s with
  | EmptyString => None
  | String c s' =>
      match last_dot s' with
      | Some (before, after) => Some (String c before, after)
      | None => if Ascii.eqb c "."%char then Some (EmptyString, s') else None
      end
  end.

(** [s.rsplit('.', 1)]. *)
Definition rsplit_dot (s : string) : list string :=
  match last_dot s with
  | Some (before, after) => [before; after]
  | None => [s]
  end.

(** [allowed_file(filename)]; [and] evaluates the index only when the
    name holds a ['.']. *)
Definition allowed_file (filename : string) : bool :=
  contains_char "."%char filename &&
  bool_decide (lower (nth 1 (rsplit_dot filename) "") ∈ ALLOWED_EXTENSIONS).

End App.

(** * Sample inputs *)

Module Samples.
Import Fingerprint.

(** Two equal neighbouring cells above the floor. *)
Definition plateau : ndarray Q := of_rows 0%Q [[11%Q; 11%Q]].

(** A cell above the floor next to a larger one, with silence nearby. *)
Definition near_zero : ndarray Q := of_rows 0%Q [[11%Q; 100%Q; 0%Q]].

(** Two far-apart maxima: bin 0 at frame 21 and bin 1 at frame 0. *)
Definition two_peaks : ndarray Q :=
  of_rows 1%Q [replicate 21 1%Q ++ [50%Q]; 50%Q :: replicate 21 1%Q].

(** Six peaks, one per frame. *)
Definition six_peaks : list peak :=
  [(10, 0); (20, 1); (30, 2); (40, 3); (50, 4); (60, 5)].

(** A movie and the postings of the peaks [(10, 0); (20, 1); (30, 2)]
    with [fan_value = 5]: the SHA-1 digests of ["10|20|1"], ["10|30|2"]
    and ["20|30|1"]. *)
Definition movie_metadata : BuildDatabase.metadata :=
  {| BuildDatabase.md_title := "The Dictator";
     BuildDatabase.md_type := "movie";
     BuildDatabase.md_season := None;
     BuildDatabase.md_episode := None |}.

Definition movie_path : string := "data/movies/the_dictator.mp3".

Definition movie_postings : list posting :=
  [("8e5fbd4b86853ff78cb800d46c81748e4efb9da4", 0);
   ("3aa57060549c18115ab052ed25a922654a71879b", 0);
   ("c4cb77f044752dfb618d1e1a5937aebf25a7d3ee", 1)].

Definition movie_file : BuildDatabase.audio_file :=
  {| BuildDatabase.af_path := movie_path;
     BuildDatabase.af_metadata := movie_metadata;
     BuildDatabase.af_fingerprints := Some movie_postings |}.

(** Two works, the postings of the second stored before those of the
    first.  Work 1 holds the digest of ["10|20|1"] at the frames 98 to
    102, work 2 the digest of ["10|30|2"] at the frames 298 to 302; the
    digest of work 2 is the lower one, so a search for both returns the
    rows of work 2 first. *)
Definition alpha_postings : list posting :=
  map (λ t, ("8e5fbd4b86853ff78cb800d46c81748e4efb9da4", t))
      [98; 99; 100; 101; 102].

Definition beta_postings : list posting :=
  map (λ t, ("3aa57060549c18115ab052ed25a922654a71879b", t))
      [298; 299; 300; 301; 302].

Definition tied_catalogue : Database.FingerprintDatabase :=
  let '(alpha, db) :=
    Database.add_media Database.create "Alpha" "movie"
      "data/movies/alpha.mp3" None None in
  let '(beta, db) :=
    Database.add_media db "Beta" "movie" "data/movies/beta.mp3" None None in
  let db := Database.add_fingerprints db beta beta_postings in
  Database.add_fingerprints db alpha alpha_postings.

End Samples.

Module MoreSamples.
Import Fingerprint.

(** Three frames of digital silence in two bins. *)
Definition silence : ndarray Q :=
  of_rows 0%Q [[0%Q; 0%Q; 0%Q]; [0%Q; 0%Q; 0%Q]].

(** A catalogue holding one work, stored with [beta_postings]. *)
Definition beta_path : string := "data/movies/beta.mp3".

Definition beta_catalogue : Database.FingerprintDatabase :=
  (BuildDatabase.ingest Database.create Samples.movie_metadata beta_path
     Samples.beta_postings).2.

Definition alpha_path : string := "data/movies/alpha.mp3".

End MoreSamples.

(** * Properties *)

Import Fingerprint Database BuildDatabase Matcher Samples.

(** ** The search statement and the order of its rows *)

Lemma append_nil_l (s : string) : "" +:+ s = s.
Proof. reflexivity. Qed.

Lemma append_cons (a : ascii) (s t : string) :
  String a s +:+ t = String a (s +:+ t).
Proof. reflexivity. Qed.

Lemma count_placeholders_app (s t : string) :
  count_placeholders (s +:+ t) =
  (count_placeholders s + count_placeholders t)%nat.
Proof.
  induction s as [|c s IH]; [done|].
  rewrite append_cons. simpl. rewrite IH. lia.
Qed.

Lemma count_placeholders_join (n : nat) :
  count_placeholders (String.concat "," (replicate n "?")) = n.
Proof.
  induction n as [|n IH]; [done|].
  destruct n as [|n]; [done|].
  change (replicate (S (S n)) "?") with ("?" :: replicate (S n) "?").
  change (String.concat "," ("?" :: replicate (S n) "?"))
    with ("?" +:+ "," +:+ String.concat "," (replicate (S n) "?")).
  rewrite !count_placeholders_app, IH. done.
Qed.

Lemma count_placeholders_statement (query_hashes : list string) :
  count_placeholders (search_statement query_hashes) = length query_hashes.
Proof.
  unfold search_statement, placeholders.
  rewrite !count_placeholders_app, count_placeholders_join. done.
Qed.

Lemma execute_search_statement db (query_hashes : list string) :
  execute_search db (search_statement query_hashes) query_hashes =
  Some (sort_by_hash (matching_rows db query_hashes)).
Proof.
  unfold execute_search.
  by rewrite count_placeholders_statement, Nat.eqb_refl.
Qed.

Lemma search_fingerprints_rows db (query_hashes : list string) :
  search_fingerprints db query_hashes =
  sort_by_hash (matching_rows db query_hashes).
Proof. unfold search_fingerprints. by rewrite execute_search_statement. Qed.

Lemma insert_by_hash_perm row rows :
  Permutation (insert_by_hash row rows) (row :: rows).
Proof.
  induction rows as [|r rest IH]; simpl; [done|].
  destruct (String.leb _ _); [done|].
  rewrite IH. apply perm_swap.
Qed.

Lemma sort_by_hash_perm rows : Permutation (sort_by_hash rows) rows.
Proof.
  induction rows as [|row rows IH]; simpl; [done|].
  by rewrite insert_by_hash_perm, IH.
Qed.

Lemma in_search_fingerprints db query_hashes row :
  In row (search_fingerprints db query_hashes) ↔
  In row (matching_rows db query_hashes).
Proof.
  rewrite search_fingerprints_rows.
  split; apply Permutation_in; [|symmetry]; apply sort_by_hash_perm.
Qed.









(** ** The hasher *)

Section PairingFacts.
Context {A : Type} (emit : Z → Z → Z → Z → A) (self : AudioFingerprinter).

Lemma inner_loop_take_while peaks freq1 time1 js acc :
  inner_loop emit self peaks freq1 time1 js acc =
  acc ++ map (λ q : peak, emit freq1 (freq_of q) (time_of q - time1) time1)
             (take_while (within_window self (freq1, time1))
                         (map (λ j, nth j peaks (0, 0)) js)).
Proof.
  revert acc. induction js as [|j js IH]; intros acc; simpl.
  - by rewrite app_nil_r.
  - destruct (nth j peaks (0, 0)) as [freq2 time2] eqn:Hj.
    unfold within_window at 1, time_of at 1 2. simpl.
    destruct (time2 - time1 >? time_window self); simpl.
    + by rewrite app_nil_r.
    + rewrite IH, <- app_assoc. reflexivity.
Qed.

Lemma outer_loop_flat_map peaks idxs acc :
  outer_loop emit self peaks idxs acc =
  acc ++ flat_map
           (λ i, map (λ lm, emit (lm_freq1 lm) (lm_freq2 lm)
                                 (lm_time_delta lm) (lm_time1 lm))
                     (anchor_landmarks self peaks i))
           idxs.
Proof.
  revert acc. induction idxs as [|i idxs IH]; intros acc; simpl.
  - by rewrite app_nil_r.
  - destruct (nth i peaks (0, 0)) as [freq1 time1] eqn:Hi.
    rewrite IH, inner_loop_take_while, <- app_assoc. f_equal. f_equal.
    unfold anchor_landmarks, targets, candidates. rewrite Hi.
    rewrite map_map. reflexivity.
Qed.

Lemma pair_peaks_flat_map peaks :
  pair_peaks emit self peaks =
  map (λ lm, emit (lm_freq1 lm) (lm_freq2 lm)
                  (lm_time_delta lm) (lm_time1 lm))
      (flat_map (anchor_landmarks self (sort_by_time peaks))
                (py_range 0 (length (sort_by_time peaks)))).
Proof.
  unfold pair_peaks. rewrite outer_loop_flat_map. simpl.
  generalize (py_range 0 (length (sort_by_time peaks))).
  induction l as [|i l IH]; simpl; [done|].
  by rewrite map_app, IH.
Qed.
End PairingFacts.

Lemma landmarks_flat_map self peaks :
  landmarks self peaks =
  flat_map (anchor_landmarks self (sort_by_time peaks))
           (py_range 0 (length (sort_by_time peaks))).
Proof.
  unfold landmarks. rewrite pair_peaks_flat_map.
  rewrite <- (map_id (flat_map _ _)) at 2.
  apply map_ext. by intros [].
Qed.

Lemma generate_hashes_landmarks sha1 self peaks :
  generate_hashes sha1 self peaks =
  map (posting_of sha1) (landmarks self peaks).
Proof.
  unfold generate_hashes. rewrite pair_peaks_flat_map, landmarks_flat_map.
  reflexivity.
Qed.

(** *** The sort *)

Lemma insert_by_time_perm p l : Permutation (insert_by_time p l) (p :: l).
Proof.
  induction l as [|q l IH]; simpl; [done|].
  destruct (time_of p <=? time_of q); [done|].
  rewrite IH. apply perm_swap.
Qed.

Lemma sort_by_time_perm peaks : Permutation (sort_by_time peaks) peaks.
Proof.
  induction peaks as [|p l IH]; simpl; [done|].
  by rewrite insert_by_time_perm, IH.
Qed.

Lemma insert_by_time_sorted p l :
  StronglySorted time_le l → StronglySorted time_le (insert_by_time p l).
Proof.
  induction 1 as [|q l Hl IH Hq]; simpl.
  - repeat constructor.
  - destruct (Z.leb_spec (time_of p) (time_of q)) as [Hpq|Hpq].
    + constructor; [by constructor|].
      constructor; [exact Hpq|].
      eapply Forall_impl; [exact Hq|].
      unfold time_le. intros r Hr. simpl in Hr. lia.
    + constructor; [exact IH|].
      rewrite (insert_by_time_perm p l).
      constructor; [unfold time_le; lia | exact Hq].
  Qed.

Lemma sort_by_time_sorted peaks : StronglySorted time_le (sort_by_time peaks).
Proof.
  induction peaks as [|p l IH]; simpl; [constructor|].
  by apply insert_by_time_sorted.
Qed.

Lemma sorted_nth_le (l : list peak) (i j : nat) d :
  StronglySorted time_le l → (i < j < length l)%nat →
  time_le (nth i l d) (nth j l d).
Proof.
  intros Hl. revert i j. induction Hl as [|p l Hl IH Hp]; intros i j Hij.
  - simpl in Hij. lia.
  - destruct j as [|j]; [lia|]. simpl in Hij.
    destruct i as [|i]; simpl.
    + rewrite Forall_forall in Hp. apply Hp.
      apply list_elem_of_In, nth_In. lia.
    + apply IH. lia.
Qed.

(** *** Loops that break *)

Lemma take_while_Forall {A : Type} (f : A → bool) (l : list A) :
  Forall (λ x, f x = true) (take_while f l).
Proof.
  induction l as [|x l IH]; simpl; [constructor|].
  destruct (f x) eqn:Hx; by constructor.
Qed.

Lemma take_while_prefix {A : Type} (f : A → bool) (l : list A) :
  ∃ rest, l = take_while f l ++ rest ∧ (∀ x, head rest = Some x → f x = false).
Proof.
  induction l as [|x l (rest & Hl & Hrest)]; simpl.
  - exists []. split; [done|]. by intros x [=].
  - destruct (f x) eqn:Hx.
    + exists rest. split; [simpl; congruence | exact Hrest].
    + exists (x :: l). split; [done|]. intros y [= <-]. exact Hx.
Qed.

Lemma in_take_while {A : Type} (f : A → bool) (l : list A) (x : A) :
  In x (take_while f l) → In x l ∧ f x = true.
Proof.
  induction l as [|y l IH]; simpl; [done|].
  destruct (f y) eqn:Hy; simpl; [|done].
  intros [<-|Hx]; [by auto|]. destruct (IH Hx). auto.
Qed.

Lemma in_py_range (j lo hi : nat) :
  In j (py_range lo hi) ↔ (lo ≤ j < hi)%nat.
Proof. unfold py_range. rewrite in_seq. lia. Qed.

Lemma in_candidates self peaks i q :
  In q (candidates self peaks i) →
  ∃ j, (i < j < length peaks)%nat ∧ (j < i + fan_value self)%nat ∧
       q = nth j peaks (0, 0).
Proof.
  unfold candidates. rewrite in_map_iff. intros (j & <- & Hj).
  apply in_py_range in Hj. exists j. repeat split; lia.
Qed.

Lemma in_landmarks self peaks lm :
  In lm (landmarks self peaks) →
  ∃ i j, (i < j < length peaks)%nat ∧ (j < i + fan_value self)%nat ∧
    let sorted := sort_by_time peaks in
    lm = landmark_of (nth i sorted (0, 0)) (nth j sorted (0, 0)) ∧
    within_window self (nth i sorted (0, 0)) (nth j sorted (0, 0)) = true.
Proof.
  rewrite landmarks_flat_map, in_flat_map. intros (i & Hi & Hlm).
  unfold anchor_landmarks, targets in Hlm.
  apply in_map_iff in Hlm as (q & <- & Hq).
  apply in_take_while in Hq as [Hq Hw].
  apply in_candidates in Hq as (j & Hj & Hfan & ->).
  rewrite (Permutation_length (sort_by_time_perm peaks)) in Hj.
  exists i, j. auto.
Qed.

(** C8.  Every posting [generate_hashes] emits is the image of a landmark
    whose time delta lies between [0] and [time_window] (200 frames by
    default): non-negative because the pairs are taken in time-sorted
    order, bounded because, for each anchor, the targets are the
    candidates before the first one whose delta exceeds [time_window]. *)
Theorem generate_hashes_time_delta_bounds
    (sha1 : string → string) (self : AudioFingerprinter) (peaks : list peak) :
  generate_hashes sha1 self peaks =
    map (posting_of sha1) (landmarks self peaks) ∧
  Forall (λ lm, 0 ≤ lm_time_delta lm ≤ time_window self)
         (landmarks self peaks) ∧
  landmarks self peaks =
    flat_map (anchor_landmarks self (sort_by_time peaks))
             (py_range 0 (length (sort_by_time peaks))) ∧
  ∀ i, ∃ rest,
    let sorted := sort_by_time peaks in
    candidates self sorted i = targets self sorted i ++ rest ∧
    ∀ q, head rest = Some q →
         time_of q - time_of (nth i sorted (0, 0)) > time_window self.
Proof.
  split; [apply generate_hashes_landmarks|].
  split; [|split; [apply landmarks_flat_map|]].
  - apply Forall_forall. intros lm Hlm%list_elem_of_In.
    apply in_landmarks in Hlm as (i & j & Hij & _ & -> & Hw). simpl.
    pose proof (sorted_nth_le (sort_by_time peaks) i j (0, 0)
                  (sort_by_time_sorted peaks)) as Hle.
    rewrite (Permutation_length (sort_by_time_perm peaks)) in Hle.
    specialize (Hle Hij). unfold time_le in Hle.
    unfold within_window in Hw. apply negb_true_iff in Hw.
    lia.
  - intros i. simpl. unfold targets.
    destruct (take_while_prefix
                (within_window self (nth i (sort_by_time peaks) (0, 0)))
                (candidates self (sort_by_time peaks) i))
      as (rest & Heq & Hrest).
    exists rest. split; [exact Heq|].
    intros q Hq. apply Hrest in Hq. unfold within_window in Hq.
    apply negb_false_iff in Hq. lia.
Qed.

Example time_window_default : time_window default = 200.
Proof. reflexivity. Qed.

(** *** The fan-out *)

Lemma candidates_length self peaks i :
  length (candidates self peaks i) =
  Nat.min (fan_value self - 1) (length peaks - (i + 1)).
Proof.
  unfold candidates, py_range. rewrite length_map, length_seq. lia.
Qed.

Lemma candidates_positions self peaks i q :
  In q (candidates self peaks i) ↔
  ∃ j, (i < j ≤ i + (fan_value self - 1))%nat ∧ (j < length peaks)%nat ∧
       q = nth j peaks (0, 0).
Proof.
  unfold candidates. rewrite in_map_iff. split.
  - intros (j & <- & Hj%in_py_range). exists j. repeat split; lia.
  - intros (j & Hj & Hlen & ->). exists j. split; [done|].
    apply in_py_range. lia.
Qed.

(** C3.  With [fan_value = 5] the anchor at position 0 of six time-sorted
    peaks should meet the five targets at positions 1 to 5, all of them
    within the time window.  [range(i + 1, min(i + fan_value, len(peaks)))]
    visits positions 1 to 4 only: four postings carry the anchor time 0
    and the pair with the peak at position 5 is never formed. *)
Theorem fan_out_reaches_four_targets (sha1 : string → string) :
  fan_value default = 5%nat ∧
  sort_by_time six_peaks = six_peaks ∧
  candidates default six_peaks 0 = [(20, 1); (30, 2); (40, 3); (50, 4)] ∧
  within_window default (10, 0) (60, 5) = true ∧
  List.filter (λ fp : posting, fp.2 =? 0)
              (generate_hashes sha1 default six_peaks) =
    [(sha1 "10|20|1", 0); (sha1 "10|30|2", 0);
     (sha1 "10|40|3", 0); (sha1 "10|50|4", 0)].
Proof. repeat split; vm_compute; reflexivity. Qed.

(** ** The peak extractor *)

(** *** Index pairs of a mask *)

Lemma in_arrayb_iff {A : Type} (a : ndarray A) i j :
  in_arrayb a i j = true ↔ in_array a i j.
Proof. unfold in_arrayb, in_array. rewrite !andb_true_iff. lia. Qed.

Lemma in_np_where (mask : ndarray bool) (i j : Z) :
  In (i, j) (np_where mask) ↔ in_array mask i j ∧ cell mask i j = true.
Proof.
  unfold np_where, in_array. rewrite in_flat_map. split.
  - intros (a & Ha & Hin). apply in_flat_map in Hin as (b & Hb & Hin).
    apply in_seq in Ha, Hb.
    destruct (cell mask (Z.of_nat a) (Z.of_nat b)) eqn:Hc; [|done].
    destruct Hin as [[= <- <-]|[]]. split; [lia | done].
  - intros ((Hi & Hj) & Hc). exists (Z.to_nat i). split; [apply in_seq; lia|].
    apply in_flat_map. exists (Z.to_nat j). split; [apply in_seq; lia|].
    rewrite !Z2Nat.id by lia. rewrite Hc. by left.
Qed.

Lemma masked_filter {A B : Type} (g : B → A) (P : A → bool) (l : list B) :
  map snd (List.filter (λ ap : A * B, P ap.1) (combine (map g l) l)) =
  List.filter (λ x, P (g x)) l.
Proof.
  induction l as [|x l IH]; simpl; [done|].
  destruct (P (g x)); simpl; by rewrite IH.
Qed.

(** *** Reading beyond the border *)

Lemma reflect_index_inside (len : nat) (i : Z) :
  0 ≤ i < Z.of_nat len → Ndimage.reflect_index len i = i.
Proof.
  intros Hi. unfold Ndimage.reflect_index. simpl.
  rewrite Z.mod_small by lia.
  destruct (Z.ltb_spec i (Z.of_nat len)); lia.
Qed.

Lemma reflect_index_near (len : nat) (i d : Z) :
  0 ≤ i < Z.of_nat len →
  0 ≤ Ndimage.reflect_index len (i + d) < Z.of_nat len ∧
  Z.abs (Ndimage.reflect_index len (i + d) - i) ≤ Z.abs d.
Proof.
  intros Hi. unfold Ndimage.reflect_index. simpl.
  set (n := Z.of_nat len) in *.
  pose proof (Z.div_mod (i + d) (2 * n) ltac:(lia)) as Hdm.
  pose proof (Z.mod_pos_bound (i + d) (2 * n) ltac:(lia)) as Hm.
  set (m := (i + d) mod (2 * n)) in *.
  set (q := (i + d) / (2 * n)) in *.
  assert (Hq : q = 0 ∨ (1 ≤ q ∧ 2 * n ≤ 2 * n * q)
                   ∨ (q ≤ -1 ∧ 2 * n * q ≤ - (2 * n))) by nia.
  destruct (Z.ltb_spec m n); lia.
Qed.

(** *** The footprint *)

Lemma in_footprint_offsets (self : AudioFingerprinter) (di dj : Z) :
  In (di, dj)
     (Ndimage.footprint_offsets
        (Ndimage.iterate_cross (peak_neighborhood_size self))) ↔
  Z.abs di + Z.abs dj ≤ radius self.
Proof.
  unfold Ndimage.footprint_offsets, radius.
  set (r := Nat.max 1 (peak_neighborhood_size self)).
  assert (Hhalf : ((2 * r + 1) / 2 = r)%nat).
  { symmetry. apply (Nat.div_unique _ 2 r 1); lia. }
  unfold Ndimage.iterate_cross. cbv zeta. cbn [nrows ncols]. fold r.
  rewrite Hhalf, in_map_iff. split.
  - intros ([i j] & [= <- <-] & Hin). apply in_np_where in Hin as [_ Hc].
    cbn [cell fst snd] in *. apply Z.leb_le in Hc. exact Hc.
  - intros Hd. exists (di + Z.of_nat r, dj + Z.of_nat r). cbn [fst snd].
    split; [f_equal; lia|].
    apply in_np_where. unfold in_array. cbn [nrows ncols cell].
    split; [lia|].
    apply Z.leb_le. replace (di + Z.of_nat r - Z.of_nat r) with di by lia.
    replace (dj + Z.of_nat r - Z.of_nat r) with dj by lia. exact Hd.
Qed.

(** *** Maxima of lists *)

Lemma Qmaximum_cases (a b : Q) :
  (Qmaximum a b = a ∧ (b <= a)%Q) ∨ (Qmaximum a b = b ∧ (a <= b)%Q).
Proof.
  unfold Qmaximum. destruct (Qle_bool a b) eqn:Hab.
  - right. split; [done|]. by apply Qle_bool_iff.
  - left. split; [done|]. apply Qlt_le_weak, Qnot_le_lt.
    intros Hle%Qle_bool_iff. congruence.
Qed.

Lemma foldl_Qmaximum_in (v : Q) (vs : list Q) :
  In (foldl Qmaximum v vs) (v :: vs).
Proof.
  revert v. induction vs as [|x vs IH]; intros v; simpl; [by left|].
  destruct (Qmaximum_cases v x) as [[-> _]|[-> _]];
    destruct (IH v) as [?|?], (IH x) as [?|?]; simpl in *; auto.
Qed.

Lemma foldl_Qmaximum_upper (vs : list Q) :
  ∀ v x : Q, In x (v :: vs) → (x <= foldl Qmaximum v vs)%Q.
Proof.
  induction vs as [|y vs IH]; intros v x; simpl.
  - intros [->|[]]. apply Qle_refl.
  - intros Hx.
    assert (Hv : (v <= Qmaximum v y)%Q ∧ (y <= Qmaximum v y)%Q).
    { destruct (Qmaximum_cases v y) as [[-> ?]|[-> ?]];
        split; auto using Qle_refl. }
    destruct Hx as [->|[->|Hx]].
    + eapply Qle_trans; [apply Hv | apply IH; by left].
    + eapply Qle_trans; [apply Hv | apply IH; by left].
    + apply IH. by right.
Qed.

Lemma foldl_orb_true (v : bool) (vs : list bool) :
  foldl orb v vs = true ↔ In true (v :: vs).
Proof.
  revert v. induction vs as [|x vs IH]; intros v; simpl.
  - split; [by left | by intros [->|[]]].
  - rewrite IH. simpl. destruct v, x; simpl; intuition congruence.
Qed.

(** *** The two filter runs of [find_peaks] *)

Section FilterRuns.
Variable self : AudioFingerprinter.
Variable M : ndarray Q.

Lemma local_max_at_iff f t :
  in_array M f t →
  local_max_at self M f t = true ↔ footprint_maximum self M f t.
Proof.
  intros [Hf Ht]. unfold local_max_at, Ndimage.maximum_filter.
  cbn [cell].
  set (vals := map _ (Ndimage.footprint_offsets _)).
  assert (Hcover : ∀ g u, in_array M g u → in_footprint self f t g u →
                          In (cell M g u) vals).
  { intros g u [Hg Hu] Hin. apply in_map_iff.
    exists (g - f, u - t). split.
    - cbn [Ndimage.extended fst snd].
      replace (f + (g - f)) with g by lia.
      replace (t + (u - t)) with u by lia.
      by rewrite !reflect_index_inside.
    - apply in_footprint_offsets. exact Hin. }
  assert (Hsound : ∀ x, In x vals →
                        ∃ g u, in_array M g u ∧ in_footprint self f t g u ∧
                               x = cell M g u).
  { intros x ([di dj] & <- & Hd)%in_map_iff.
    apply in_footprint_offsets in Hd. cbn [Ndimage.extended fst snd].
    destruct (reflect_index_near (nrows M) f di Hf) as [Hg1 Hg2].
    destruct (reflect_index_near (ncols M) t dj Ht) as [Hu1 Hu2].
    eexists _, _. split; [split; eassumption|]. split; [|reflexivity].
    unfold in_footprint. lia. }
  assert (Hself : In (cell M f t) vals).
  { apply Hcover; [done|]. unfold in_footprint, radius. lia. }
  destruct vals as [|v vs]; [done|].
  rewrite Qeq_bool_iff. split.
  - intros Heq g u Hgu Hin. rewrite <- Heq.
    apply foldl_Qmaximum_upper, Hcover; done.
  - intros Hmax. apply Qle_antisym.
    + destruct (Hsound _ (foldl_Qmaximum_in v vs)) as (g & u & ? & ? & ->).
      by apply Hmax.
    + by apply foldl_Qmaximum_upper.
Qed.

Lemma eroded_background_at_iff f t :
  eroded_background_at self M f t = true ↔ zero_in_footprint self M f t.
Proof.
  unfold eroded_background_at, Ndimage.maximum_filter.
  cbn [cell].
  set (vals := map _ (Ndimage.footprint_offsets _)).
  assert (Hvals : In true vals ↔ zero_in_footprint self M f t).
  { unfold vals. rewrite in_map_iff. split.
    - intros ([di dj] & Hext & Hd). apply in_footprint_offsets in Hd.
      cbn [Ndimage.extended fst snd] in Hext.
      destruct (in_arrayb _ _ _) eqn:Hin; [|done].
      apply in_arrayb_iff in Hin. cbn [map_cells cell] in Hext.
      exists (f + di), (t + dj). split; [exact Hin|].
      split; [unfold in_footprint;
              replace (f + di - f) with di by lia;
              replace (t + dj - t) with dj by lia; exact Hd|].
      by apply Qeq_bool_iff.
    - intros (g & u & Hgu & Hin & Hz). exists (g - f, u - t).
      split; [|by apply in_footprint_offsets].
      cbn [Ndimage.extended fst snd].
      replace (f + (g - f)) with g by lia.
      replace (t + (u - t)) with u by lia.
      assert (Hb : in_arrayb (map_cells (λ x, Qeq_bool x 0%Q) M) g u = true)
        by by apply in_arrayb_iff.
      rewrite Hb. cbn [map_cells cell]. by apply Qeq_bool_iff. }
  destruct vals as [|v vs].
  - rewrite <- Hvals. simpl. split; [done | intros []].
  - by rewrite foldl_orb_true.
Qed.

Lemma in_find_peaks f t :
  In (f, t) (find_peaks self M) ↔
  in_array M f t ∧
  xorb (local_max_at self M f t) (eroded_background_at self M f t) = true ∧
  (min_amplitude self < cell M f t)%Q.
Proof.
  unfold find_peaks. cbv zeta.
  rewrite (masked_filter (λ ij : Z * Z, cell M ij.1 ij.2)
             (λ a, negb (Qle_bool a (min_amplitude self)))).
  rewrite filter_In, in_np_where. cbn [fst snd zip_cells cell nrows ncols].
  fold (local_max_at self M f t) (eroded_background_at self M f t).
  unfold in_array. cbn [nrows ncols].
  assert (Hx : ∀ a b, negb (Bool.eqb a b) = xorb a b) by by intros [] [].
  rewrite Hx.
  assert (Hamp : negb (Qle_bool (cell M f t) (min_amplitude self)) = true ↔
                 (min_amplitude self < cell M f t)%Q).
  { rewrite negb_true_iff. split.
    - intros Hle. apply Qnot_le_lt. intros H%Qle_bool_iff. congruence.
    - intros Hlt. destruct (Qle_bool _ _) eqn:Hle; [|done].
      apply Qle_bool_iff in Hle. by apply Qlt_not_le in Hlt. }
  rewrite Hamp. tauto.
Qed.
End FilterRuns.

(** *** What [find_peaks] reports *)

(** Closes [in_array] and [in_footprint] at given cells. *)
Ltac by_cells :=
  first [ apply in_arrayb_iff; vm_compute; reflexivity
        | unfold in_footprint; vm_compute; discriminate ].

Example radius_default : radius default = 20.
Proof. reflexivity. Qed.

Example min_amplitude_default : min_amplitude default = 10%Q.
Proof. reflexivity. Qed.

(** C4, as stated, fails: on a plateau of two equal cells above the floor
    [find_peaks] reports the cell [(0, 0)], which is not the strict
    maximum of its footprint ([local_max] compares with [==]). *)
Lemma plateau_reported_not_strict :
  ¬ (∀ M f t, In (f, t) (find_peaks default M) ↔ stated_peak default M f t).
Proof.
  intros Hclaim.
  destruct (Hclaim plateau 0 0) as [Hreported _].
  assert (Hin : In (0, 0) (find_peaks default plateau))
    by (vm_compute; left; reflexivity).
  destruct (Hreported Hin) as (_ & Hstrict & _).
  assert (Hlt : (cell plateau 0 1 < cell plateau 0 0)%Q).
  { apply Hstrict; [by_cells | by_cells | discriminate]. }
  vm_compute in Hlt. discriminate.
Qed.

(** C4, amended.  For a cell that equals the maximum of its footprint
    (ties allowed) or has no exactly-zero cell in its footprint:
    [find_peaks] reports it if and only if it lies in the spectrogram,
    equals the maximum of the spectrogram over the diamond footprint
    centred at it (radius 20 by default), exceeds [min_amplitude] (10 by
    default) and has no exactly-zero cell in that footprint. *)
Theorem find_peaks_reports (self : AudioFingerprinter) (M : ndarray Q)
    (f t : Z) :
  footprint_maximum self M f t ∨ ¬ zero_in_footprint self M f t →
  (In (f, t) (find_peaks self M) ↔
   in_array M f t ∧
   footprint_maximum self M f t ∧
   (min_amplitude self < cell M f t)%Q ∧
   ¬ zero_in_footprint self M f t).
Proof.
  intros Hcase. rewrite in_find_peaks. split.
  - intros (Hin & Hxor & Hamp).
    pose proof (local_max_at_iff self M f t Hin) as Hlm.
    pose proof (eroded_background_at_iff self M f t) as Her.
    destruct (local_max_at self M f t), (eroded_background_at self M f t);
      simpl in Hxor; try discriminate.
    + split; [exact Hin|]. split; [by apply Hlm|]. split; [exact Hamp|].
      intros Hz%Her. discriminate.
    + exfalso. destruct Hcase as [Hmax%Hlm | Hz]; [discriminate|].
      apply Hz, Her. reflexivity.
  - intros (Hin & Hmax & Hamp & Hz). split; [exact Hin|]. split; [|exact Hamp].
    apply (local_max_at_iff self M f t Hin) in Hmax. rewrite Hmax.
    destruct (eroded_background_at self M f t) eqn:Her; [|done].
    apply eroded_background_at_iff in Her. contradiction.
Qed.

Lemma find_peaks_reports_witness :
  (footprint_maximum default plateau 0 0 ∨
   ¬ zero_in_footprint default plateau 0 0) ∧
  (In (0, 0) (find_peaks default plateau) ↔
   in_array plateau 0 0 ∧
   footprint_maximum default plateau 0 0 ∧
   (min_amplitude default < cell plateau 0 0)%Q ∧
   ¬ zero_in_footprint default plateau 0 0).
Proof.
  assert (Hz : ¬ zero_in_footprint default plateau 0 0).
  { intros Hz%eroded_background_at_iff. vm_compute in Hz. discriminate. }
  split; [right; exact Hz|].
  apply (find_peaks_reports default plateau 0 0). right. exact Hz.
Defined.

(** Beyond the cells C4 as amended speaks of: a cell that is not the
    maximum of its footprint is reported when it exceeds the floor and a
    zero lies in its footprint ([local_max != eroded_background]), and a
    maximum with a zero in its footprint is not. *)
Remark near_zero_reports_lower_cell :
  find_peaks default near_zero = [(0, 0)] ∧
  ¬ footprint_maximum default near_zero 0 0 ∧
  footprint_maximum default near_zero 0 1 ∧
  (min_amplitude default < cell near_zero 0 1)%Q.
Proof.
  split; [vm_compute; reflexivity|].
  split; [|split].
  - intros Hmax. apply local_max_at_iff in Hmax;
      [vm_compute in Hmax; discriminate | by_cells].
  - apply local_max_at_iff; [by_cells | vm_compute; reflexivity].
  - vm_compute. reflexivity.
Qed.

(** *** The order of the reported peaks *)

Lemma StronglySorted_app_intro {A : Type} (R : A → A → Prop) (l1 l2 : list A) :
  StronglySorted R l1 → StronglySorted R l2 →
  (∀ x y, In x l1 → In y l2 → R x y) →
  StronglySorted R (l1 ++ l2).
Proof.
  induction 1 as [|a l1 Hl1 IH Ha]; intros Hl2 Hcross; simpl; [done|].
  constructor.
  - apply IH; [done|]. intros x y Hx Hy. apply Hcross; [by right | done].
  - apply Forall_app. split; [done|].
    apply Forall_forall. intros y Hy%list_elem_of_In.
    apply Hcross; [by left | done].
Qed.

Lemma StronglySorted_flat_map {A B : Type} (R0 : A → A → Prop)
    (R : B → B → Prop) (f : A → list B) (l : list A) :
  StronglySorted R0 l →
  (∀ a, In a l → StronglySorted R (f a)) →
  (∀ a a' x y, R0 a a' → In x (f a) → In y (f a') → R x y) →
  StronglySorted R (flat_map f l).
Proof.
  induction 1 as [|a l Hl IH Ha]; intros Hf Hcross; simpl; [constructor|].
  apply StronglySorted_app_intro.
  - apply Hf. by left.
  - apply IH; [|done]. intros a' Ha'. apply Hf. by right.
  - intros x y Hx (a' & Ha' & Hy)%in_flat_map.
    rewrite Forall_forall in Ha.
    apply (Hcross a a'); [|done..]. by apply Ha, list_elem_of_In.
Qed.

Lemma StronglySorted_filter {A : Type} (R : A → A → Prop) (f : A → bool)
    (l : list A) :
  StronglySorted R l → StronglySorted R (List.filter f l).
Proof.
  induction 1 as [|a l Hl IH Ha]; simpl; [constructor|].
  destruct (f a); [|done]. constructor; [done|].
  apply Forall_forall. intros y [Hy _]%list_elem_of_In%filter_In.
  rewrite Forall_forall in Ha. by apply Ha, list_elem_of_In.
Qed.

Lemma seq_sorted (a n : nat) : StronglySorted lt (seq a n).
Proof.
  revert a. induction n as [|n IH]; intros a; simpl; constructor; [done|].
  apply Forall_forall. intros y Hy%list_elem_of_In%in_seq. lia.
Qed.

Lemma np_where_row_major (mask : ndarray bool) :
  StronglySorted row_major_lt (np_where mask).
Proof.
  unfold np_where.
  apply (StronglySorted_flat_map lt); [apply seq_sorted | |].
  - intros i _.
    apply (StronglySorted_flat_map lt); [apply seq_sorted | |].
    + intros j _. destruct (cell mask _ _); repeat constructor.
    + intros j j' x y Hjj' Hx Hy.
      destruct (cell mask _ (Z.of_nat j)); [|done].
      destruct (cell mask _ (Z.of_nat j')); [|done].
      destruct Hx as [<-|[]], Hy as [<-|[]].
      right. unfold freq_of, time_of. simpl. lia.
  - intros i i' x y Hii' (j & _ & Hx)%in_flat_map (j' & _ & Hy)%in_flat_map.
    destruct (cell mask _ (Z.of_nat j)); [|done].
    destruct (cell mask _ (Z.of_nat j')); [|done].
    destruct Hx as [<-|[]], Hy as [<-|[]].
    left. unfold freq_of. simpl. lia.
Qed.

(** C6, as stated, fails: with a maximum in bin 0 at frame 21 and one in
    bin 1 at frame 0, [find_peaks] returns the first before the second. *)
Lemma find_peaks_not_time_sorted :
  ¬ (∀ M, Sorted time_le (find_peaks default M)).
Proof.
  intros Hclaim. specialize (Hclaim two_peaks).
  assert (Hpeaks : find_peaks default two_peaks = [(0, 21); (1, 0)])
    by (vm_compute; reflexivity).
  rewrite Hpeaks in Hclaim.
  apply Sorted_inv in Hclaim as [_ Hhd]. apply HdRel_inv in Hhd.
  unfold time_le, time_of in Hhd. simpl in Hhd. lia.
Qed.

(** C6, amended.  [find_peaks] returns the peaks in row-major order of the
    spectrogram: ascending [freq_bin], and ascending [frame_index] within
    a bin.  The order by ascending [frame_index] is made by the hasher,
    which sorts the list it is given before it pairs: the sorted list is
    ascending in [frame_index], a rearrangement of the peaks, and the one
    the postings are read from. *)
Theorem find_peaks_row_major (self : AudioFingerprinter) (M : ndarray Q) :
  StronglySorted row_major_lt (find_peaks self M) ∧
  StronglySorted time_le (sort_by_time (find_peaks self M)) ∧
  Permutation (sort_by_time (find_peaks self M)) (find_peaks self M) ∧
  ∀ sha1 : string → string,
    fingerprint_spectrogram sha1 self M =
    map (posting_of sha1)
        (flat_map (anchor_landmarks self (sort_by_time (find_peaks self M)))
           (py_range 0 (length (sort_by_time (find_peaks self M))))).
Proof.
  split; [|split; [apply sort_by_time_sorted|split; [apply sort_by_time_perm|]]].
  - unfold find_peaks. cbv zeta.
    rewrite (masked_filter (λ ij : Z * Z, cell M ij.1 ij.2)
               (λ a, negb (Qle_bool a (min_amplitude self)))).
    apply StronglySorted_filter, np_where_row_major.
  - intros sha1. unfold fingerprint_spectrogram. cbv zeta.
    by rewrite generate_hashes_landmarks, landmarks_flat_map.
Qed.

(** ** The catalogue *)

Lemma filter_new_rows {A : Type} (f : nat → A → fingerprint_row)
    (l : list A) (media_id x : Z) :
  (∀ k a, f_media_id (f k a) = media_id) →
  length (List.filter (λ r, f_media_id r =? x) (imap f l)) =
  if x =? media_id then length l else 0%nat.
Proof.
  revert f. induction l as [|a l IH]; intros f Hf; simpl.
  - by destruct (x =? media_id).
  - rewrite Hf, (Z.eqb_sym media_id x).
    specialize (IH (f ∘ S) (λ k b, Hf (S k) b)).
    destruct (x =? media_id); simpl; by rewrite IH.
Qed.

Lemma posting_rows_add_fingerprints db media_id fps x :
  posting_rows (add_fingerprints db media_id fps) x =
  posting_rows db x + (if x =? media_id then Z.of_nat (length fps) else 0).
Proof.
  unfold posting_rows, add_fingerprints. cbn [fingerprints].
  rewrite List.filter_app, length_app, imap_fmap.
  rewrite (filter_new_rows _ _ media_id) by done.
  destruct (x =? media_id); lia.
Qed.

Lemma filter_none {A : Type} (f : A → bool) (l : list A) :
  (∀ x, In x l → f x = false) → List.filter f l = [].
Proof.
  induction l as [|a l IH]; intros Hf; simpl; [done|].
  rewrite (Hf a) by by left. apply IH. intros x Hx. apply Hf. by right.
Qed.

Lemma find_path_None db file_path :
  ¬ path_taken db file_path →
  List.find (λ r, String.eqb (m_file_path r) file_path) (media db) = None.
Proof.
  intros Hfree.
  destruct (List.find _ _) as [r|] eqn:Hfind; [|done].
  apply find_some in Hfind as [Hr Heq%String.eqb_eq].
  exfalso. apply Hfree. unfold path_taken. rewrite <- Heq.
  by apply in_map.
Qed.

Lemma find_path_Some db file_path :
  path_taken db file_path →
  ∃ r, List.find (λ r, String.eqb (m_file_path r) file_path) (media db)
         = Some r ∧ In r (media db) ∧ m_file_path r = file_path.
Proof.
  intros (r & Hpath & Hr)%in_map_iff.
  destruct (List.find _ _) as [r'|] eqn:Hfind.
  - apply find_some in Hfind as [Hr' Heq%String.eqb_eq]. eauto.
  - eapply find_none in Hfind; [|exact Hr].
    rewrite Hpath, String.eqb_refl in Hfind. discriminate.
Qed.

(** Ingesting an unseen path keeps the counts right. *)
Lemma ingest_fresh_consistent db md file_path fps :
  ids_bounded db → posting_count_consistent db →
  ¬ path_taken db file_path →
  let db' := (ingest db md file_path fps).2 in
  ids_bounded db' ∧ posting_count_consistent db' ∧
  ∀ q, path_taken db' q ↔ path_taken db q ∨ q = file_path.
Proof.
  intros [Hm Hf] Hc Hfree. unfold ingest, add_media.
  rewrite (find_path_None db file_path Hfree). cbn [snd].
  set (new_id := media_seq db + 1).
  assert (Hnew : new_id = media_seq db + 1) by done. clearbody new_id.
  split; [split|split].
  - intros r. unfold add_fingerprints. cbn [media media_seq].
    rewrite in_map_iff. intros (r0 & <- & Hr0).
    assert (Hid : m_id (set_fingerprint_count (Z.of_nat (length fps))
                          new_id r0) = m_id r0).
    { unfold set_fingerprint_count. by destruct (m_id r0 =? new_id). }
    rewrite Hid. apply in_app_or in Hr0 as [Hr0|[<-|[]]].
    + apply Hm in Hr0. lia.
    + simpl. lia.
  - intros p. unfold add_fingerprints. cbn [fingerprints media_seq].
    intros [Hp|Hp]%in_app_or.
    + apply Hf in Hp. lia.
    + apply list_elem_of_In, elem_of_lookup_imap in Hp
        as (k & d & -> & Hd%list_elem_of_lookup_2%list_elem_of_In).
      apply in_map_iff in Hd as (fp & <- & _). simpl. lia.
  - intros r. rewrite posting_rows_add_fingerprints.
    unfold add_fingerprints. cbn [media].
    rewrite in_map_iff. intros (r0 & <- & Hr0).
    unfold set_fingerprint_count.
    apply in_app_or in Hr0 as [Hr0|[<-|[]]].
    + pose proof (Hm _ Hr0). pose proof (Hc _ Hr0) as Hcount.
      assert (Hne : (m_id r0 =? new_id) = false) by (apply Z.eqb_neq; lia).
      rewrite !Hne. unfold posting_rows in *. cbn [fingerprints]. lia.
    + cbn [m_id]. rewrite Z.eqb_refl. cbn [m_fingerprint_count m_id].
      rewrite Z.eqb_refl.
      assert (Hnone : posting_rows db new_id = 0).
      { unfold posting_rows.
        rewrite filter_none; [done|].
        intros p Hp. apply Hf in Hp. lia. }
      unfold posting_rows in *. cbn [fingerprints]. lia.
  - intros q. unfold path_taken, add_fingerprints. cbn [media].
    rewrite map_map, !in_map_iff. split.
    + intros (r0 & <- & Hr0).
      assert (Hp : m_file_path (set_fingerprint_count
                     (Z.of_nat (length fps)) new_id r0) = m_file_path r0).
      { unfold set_fingerprint_count. by destruct (m_id r0 =? new_id). }
      rewrite Hp. apply in_app_or in Hr0 as [Hr0|[<-|[]]]; [left|by right].
      by exists r0.
    + intros Hq.
      assert (Hp : ∀ r0, m_file_path (set_fingerprint_count
                     (Z.of_nat (length fps)) new_id r0) = m_file_path r0).
      { intros r0. unfold set_fingerprint_count.
        by destruct (m_id r0 =? new_id). }
      destruct Hq as [(r0 & <- & Hr0)| ->].
      * exists r0. split; [apply Hp | apply in_or_app; by left].
      * exists {| m_id := new_id; m_title := md_title md;
                  m_type := md_type md; m_season := md_season md;
                  m_episode := md_episode md; m_file_path := file_path;
                  m_fingerprint_count := 0 |}.
        split; [by rewrite Hp|]. apply in_or_app. right. by left.
Qed.

Lemma create_consistent : ids_bounded create ∧ posting_count_consistent create.
Proof. repeat split; intros ? []. Qed.

(** Over distinct source paths the cached counts stay exact. *)
Lemma build_database_distinct_paths (audio_files : list audio_file) :
  ∀ db, ids_bounded db → posting_count_consistent db →
    NoDup (map af_path audio_files) →
    (∀ af, In af audio_files → ¬ path_taken db (af_path af)) →
    posting_count_consistent (build_database db audio_files).
Proof.
  induction audio_files as [|af l IH]; intros db Hb Hc Hnd Hfree; [done|].
  simpl in Hnd. apply NoDup_cons in Hnd as [Hnotin Hnd].
  unfold build_database. simpl. apply IH; unfold process_file.
  - destruct (af_fingerprints af) as [fps|]; [|done].
    apply ingest_fresh_consistent; [done..|]. apply Hfree. by left.
  - destruct (af_fingerprints af) as [fps|]; [|done].
    apply ingest_fresh_consistent; [done..|]. apply Hfree. by left.
  - exact Hnd.
  - intros af' Haf'.
    assert (Hold : ¬ path_taken db (af_path af')) by (apply Hfree; by right).
    destruct (af_fingerprints af) as [fps|]; [|done].
    destruct (ingest_fresh_consistent db (af_metadata af) (af_path af) fps)
      as (_ & _ & Hpaths); [done..|apply Hfree; by left|].
    rewrite Hpaths. intros [?| Heq]; [done|].
    apply Hnotin. rewrite <- Heq. apply list_elem_of_In. by apply in_map.
Qed.

(** Ingesting a path the catalogue holds: the id of its row comes back
    and every posting is inserted once more. *)
Lemma ingest_taken_path db md file_path fps :
  path_taken db file_path →
  ∃ r, In r (media db) ∧ m_file_path r = file_path ∧
       (ingest db md file_path fps).1 = m_id r ∧
       length (fingerprints (ingest db md file_path fps).2) =
         (length (fingerprints db) + length fps)%nat.
Proof.
  intros (r & Hfind & Hr & Hpath)%find_path_Some. exists r.
  unfold ingest, add_media. rewrite Hfind. cbn [fst snd].
  repeat split; [done..|].
  unfold add_fingerprints. cbn [fingerprints].
  by rewrite length_app, length_imap, length_map.
Qed.

(** C1.  Ingesting the movie a second time from the same path returns the
    same [media_id] and leaves [fingerprint_count] at 3, as claimed; but
    [build_database] calls [add_fingerprints] all the same, and the
    postings table grows from 3 rows to 6. *)
Theorem reingest_inserts_postings_again :
  let first := ingest create movie_metadata movie_path movie_postings in
  let second := ingest first.2 movie_metadata movie_path movie_postings in
  first.1 = 1 ∧ second.1 = 1 ∧
  map m_fingerprint_count (media first.2) = [3] ∧
  map m_fingerprint_count (media second.2) = [3] ∧
  length (fingerprints first.2) = 3%nat ∧
  length (fingerprints second.2) = 6%nat ∧
  map f_media_id (fingerprints second.2) = [1; 1; 1; 1; 1; 1].
Proof. repeat split; vm_compute; reflexivity. Qed.

(** C2.  After [build_database] has met the same path twice the work's
    cached [fingerprint_count] is 3 while 6 rows of the postings table
    carry its id. *)
Theorem reingest_breaks_posting_count :
  let db := build_database create [movie_file; movie_file] in
  map m_id (media db) = [1] ∧
  map m_fingerprint_count (media db) = [3] ∧
  posting_rows db 1 = 6 ∧
  posting_count_consistentb db = false ∧
  ¬ posting_count_consistent db.
Proof.
  repeat split; try (vm_compute; reflexivity).
  intros Hc.
  assert (Hrow : ∃ r, In r (media (build_database create
                                     [movie_file; movie_file]))
                      ∧ m_id r = 1 ∧ m_fingerprint_count r = 3).
  { eexists. split; [vm_compute; left; reflexivity|]. by split. }
  destruct Hrow as (r & Hr & Hid & Hcount).
  apply Hc in Hr. rewrite Hid, Hcount in Hr.
  vm_compute in Hr. discriminate.
Qed.

(** ** The matcher *)

Example tied_catalogue_scores :
  scores_of tied_catalogue movie_postings =
  [ {| se_media_id := 2; se_score := 5; se_time_offset := 300;
       se_total_deltas := 5 |};
    {| se_media_id := 1; se_score := 5; se_time_offset := 100;
       se_total_deltas := 5 |} ].
Proof. vm_compute. reflexivity. Qed.

(** C5, as stated, fails: works 1 and 2 tie at score 5 and [match_clip]
    answers with work 2, the first in [scores]. *)
Lemma tie_goes_to_higher_id : ¬ lower_id_wins.
Proof.
  intros Hclaim.
  assert (Hrun : ∃ r calls,
            match_fingerprints tied_catalogue default movie_postings 5
              = (returns (Some r), calls)
            ∧ r_media_id r = 2 ∧ r_confidence r = 5).
  { eexists _, _. split; [vm_compute; reflexivity|]. by split. }
  destruct Hrun as (r & calls & Hrun & Hid & Hconf).
  specialize (Hclaim _ _ _ _ _ _ Hrun
                {| se_media_id := 1; se_score := 5; se_time_offset := 100;
                   se_total_deltas := 5 |}).
  rewrite tied_catalogue_scores, Hid, Hconf in Hclaim. simpl in Hclaim.
  assert (2 ≤ 1) by (apply Hclaim; [right; left|]; reflexivity). lia.
Qed.

(** *** [max] and the stable sort *)

Section FirstMaximum.
Context {A : Type} (key : A → Z).

Lemma max_from_ge (l : list A) :
  ∀ b, key b ≤ key (max_from key b l).
Proof.
  induction l as [|x l IH]; intros b; simpl; [lia|].
  destruct (Z.ltb_spec (key b) (key x)).
  - specialize (IH x). lia.
  - apply IH.
Qed.

(** The item returned splits the list: strictly smaller keys before
    it, no larger key after it. *)
Lemma max_from_split (l : list A) :
  ∀ b, ∃ before after,
    b :: l = before ++ max_from key b l :: after ∧
    (∀ e, In e before → key e < key (max_from key b l)) ∧
    (∀ e, In e after → key e ≤ key (max_from key b l)).
Proof.
  induction l as [|x l IH]; intros b; simpl.
  - exists [], []. repeat split; intros e [].
  - destruct (Z.ltb_spec (key b) (key x)) as [Hlt|Hge].
    + destruct (IH x) as (before & after & Heq & Hb & Ha).
      exists (b :: before), after. split; [simpl; congruence|].
      split; [|exact Ha].
      intros e [<-|He]; [|by apply Hb].
      pose proof (max_from_ge l x). lia.
    + destruct (IH b) as (before & after & Heq & Hb & Ha).
      destruct before as [|b' before]; simpl in Heq.
      * injection Heq as Hmax Hl. exists [], (x :: after).
        split; [simpl; congruence|]. split; [by intros e []|].
        intros e [<-|He]; [rewrite <- Hmax; lia | by apply Ha].
      * injection Heq as <- Hl. exists (b :: x :: before), after.
        split; [simpl; congruence|]. split; [|exact Ha].
        intros e [<-|[<-|He]].
        -- apply Hb. by left.
        -- assert (key b < key (max_from key b l)) by (apply Hb; by left).
           lia.
        -- apply Hb. by right.
Qed.

Lemma max_from_dominated (l : list A) :
  ∀ x y, key y ≤ key x →
    max_from key x l =
    if key x <? key (max_from key y l) then max_from key y l else x.
Proof.
  induction l as [|z l IH]; intros x y Hyx; simpl.
  - destruct (Z.ltb_spec (key x) (key y)); [lia | done].
  - destruct (Z.ltb_spec (key x) (key z)) as [Hxz|Hxz].
    + destruct (Z.ltb_spec (key y) (key z)); [|lia].
      pose proof (max_from_ge l z).
      destruct (Z.ltb_spec (key x) (key (max_from key z l))); [done | lia].
    + apply IH. destruct (key y <? key z); lia.
Qed.

Lemma py_max_cons (x : A) (l : list A) :
  py_max key (x :: l) = Some (challenge key x (py_max key l)).
Proof.
  destruct l as [|y l]; simpl; [done|]. f_equal.
  destruct (Z.ltb_spec (key x) (key y)) as [Hxy|Hxy].
  - pose proof (max_from_ge l y).
    destruct (Z.ltb_spec (key x) (key (max_from key y l))); [done | lia].
  - by apply max_from_dominated.
Qed.

Lemma max_from_insert_desc (x : A) (l : list A) :
  ∀ b, key x ≤ key b →
    max_from key b (insert_desc key x l) = max_from key b l.
Proof.
  induction l as [|z l IH]; intros b Hxb; simpl.
  - destruct (Z.ltb_spec (key b) (key x)); [lia | done].
  - destruct (Z.ltb_spec (key x) (key z)) as [Hxz|Hxz]; simpl.
    + apply IH. destruct (key b <? key z); lia.
    + destruct (Z.ltb_spec (key b) (key x)); [lia | done].
Qed.

Lemma py_max_insert_desc (x : A) (l : list A) :
  py_max key (insert_desc key x l) = Some (challenge key x (py_max key l)).
Proof.
  destruct l as [|y l]; [done|]. cbn [insert_desc].
  destruct (Z.ltb_spec (key x) (key y)) as [Hxy|Hxy].
  - cbn [py_max challenge]. f_equal.
    rewrite max_from_insert_desc by lia.
    pose proof (max_from_ge l y).
    destruct (Z.ltb_spec (key x) (key (max_from key y l))); [done | lia].
  - apply py_max_cons.
Qed.

(** [max] over the sorted list is [max] over the list as it was. *)
Lemma py_max_sorted_desc (l : list A) :
  py_max key (sorted_desc key l) = py_max key l.
Proof.
  induction l as [|x l IH]; [done|].
  cbn [sorted_desc foldr]. fold (sorted_desc key l).
  by rewrite py_max_insert_desc, py_max_cons, IH.
Qed.

Lemma py_max_split (l : list A) (best : A) :
  py_max key l = Some best →
  ∃ before after,
    l = before ++ best :: after ∧
    (∀ e, In e before → key e < key best) ∧
    (∀ e, In e after → key e ≤ key best).
Proof.
  destruct l as [|x l]; [done|]. intros [= <-]. apply max_from_split.
Qed.
End FirstMaximum.

(** *** The order of [scores] *)

Lemma od_update_keys {V : Type} (f : V → V) (dflt : V) (k : Z)
    (d : list (Z * V)) :
  map fst (od_update Z.eqb f dflt k d) =
  if bool_decide (k ∈ map fst d) then map fst d else map fst d ++ [k].
Proof.
  induction d as [|[k' v] d IH]; simpl; [done|].
  destruct (Z.eqb_spec k k') as [->|Hne]; simpl.
  - rewrite bool_decide_eq_true_2; [done | by left].
  - rewrite IH. destruct (decide (k ∈ map fst d)) as [Hin|Hnin].
    + rewrite !bool_decide_eq_true_2; [done | by right | done].
    + rewrite !bool_decide_eq_false_2; [done | | done].
      by intros [?|?]%elem_of_cons.
Qed.

Lemma record_matches_keys query_fingerprints db_matches :
  ∀ acc,
    map fst (foldl (record_match query_fingerprints) acc db_matches) =
    foldl note_seen (map fst acc) (matching_ids query_fingerprints db_matches).
Proof.
  unfold matching_ids.
  induction db_matches as [|[[media_id hash_val] db_time_offset] ms IH];
    intros acc; [done|].
  cbn [foldl List.filter fst snd]. rewrite IH. unfold record_match.
  destruct (query_dict query_fingerprints !! hash_val) as [q|] eqn:Hq.
  - rewrite bool_decide_eq_true_2 by done.
    cbn [map foldl fst]. by rewrite od_update_keys.
  - rewrite bool_decide_eq_false_2 by (by intros [? ?]). done.
Qed.

Lemma group_matches_keys query_fingerprints db_matches :
  map fst (group_matches query_fingerprints db_matches) =
  first_seen (matching_ids query_fingerprints db_matches).
Proof. apply record_matches_keys. Qed.

Lemma scores_in_order_ids query_fingerprints db_matches :
  map se_media_id (scores_in_order query_fingerprints db_matches) =
  first_seen (matching_ids query_fingerprints db_matches).
Proof.
  unfold scores_in_order. rewrite map_map, <- group_matches_keys.
  apply map_ext. intros [media_id time_deltas]. unfold score_media. simpl.
  by destruct (match count_deltas time_deltas with
               | [] => (0, 0) | e :: es => max_from snd e es end).
Qed.

(** *** What [match_clip] returns *)

Lemma best_of_scores query_fingerprints db_matches best :
  py_max se_score (_score_matches query_fingerprints db_matches) = Some best →
  ∃ before after,
    scores_in_order query_fingerprints db_matches = before ++ best :: after ∧
    (∀ e, In e before → se_score e < se_score best) ∧
    (∀ e, In e after → se_score e ≤ se_score best).
Proof.
  unfold _score_matches. rewrite py_max_sorted_desc. apply py_max_split.
Qed.

Lemma match_fingerprints_Some db fingerprinter query_fingerprints
    min_confidence r calls :
  match_fingerprints db fingerprinter query_fingerprints min_confidence
    = (returns (Some r), calls) →
  ∃ best,
    py_max se_score
      (_score_matches query_fingerprints
         (search_fingerprints db (map fst query_fingerprints))) = Some best ∧
    min_confidence ≤ se_score best ∧
    r_media_id r = se_media_id best ∧ r_confidence r = se_score best.
Proof.
  unfold match_fingerprints.
  destruct query_fingerprints as [|fp query_fingerprints]; [done|].
  set (q := fp :: query_fingerprints).
  destruct (search_fingerprints db (map fst q)) as [|m matches]; [done|].
  destruct (py_max se_score _) as [best|]; [|done].
  destruct (Z.ltb_spec (se_score best) min_confidence); [done|].
  destruct (get_media_info db (se_media_id best)); [|done].
  intros [= <- _]. exists best. by repeat split.
Qed.

Lemma match_fingerprints_gate db fingerprinter query_fingerprints
    min_confidence best :
  py_max se_score
    (_score_matches query_fingerprints
       (search_fingerprints db (map fst query_fingerprints))) = Some best →
  se_score best < min_confidence →
  (match_fingerprints db fingerprinter query_fingerprints min_confidence).1
    = returns None.
Proof.
  intros Hbest Hlow. unfold match_fingerprints.
  destruct query_fingerprints as [|fp query_fingerprints]; [done|].
  set (q := fp :: query_fingerprints) in *.
  destruct (search_fingerprints db (map fst q)) as [|m matches]; [done|].
  rewrite Hbest.
  destruct (Z.ltb_spec (se_score best) min_confidence); [done | lia].
Qed.

(** C5, amended.  Whenever [match_clip] returns a work, that work is the
    first entry of [scores] (as the scoring loop appends them) with the
    maximal score: every entry before it has a strictly smaller score and
    none after it a larger one; and the entries stand in the order in
    which their ids first occur among the rows [search_fingerprints]
    returned.  Ties go to the work met first, not to the lower id. *)
Theorem tie_goes_to_first_seen db fingerprinter query_fingerprints
    min_confidence r calls :
  match_fingerprints db fingerprinter query_fingerprints min_confidence
    = (returns (Some r), calls) →
  ∃ before best after,
    scores_of db query_fingerprints = before ++ best :: after ∧
    r_media_id r = se_media_id best ∧
    r_confidence r = se_score best ∧
    (∀ e, In e before → se_score e < r_confidence r) ∧
    (∀ e, In e after → se_score e ≤ r_confidence r) ∧
    map se_media_id (scores_of db query_fingerprints) =
      first_seen
        (matching_ids query_fingerprints
           (search_fingerprints db (map fst query_fingerprints))).
Proof.
  intros (best & Hbest & _ & Hid & Hconf)%match_fingerprints_Some.
  apply best_of_scores in Hbest as (before & after & Heq & Hb & Ha).
  exists before, best, after. rewrite Hconf.
  repeat split; try done. apply scores_in_order_ids.
Qed.

Lemma tie_goes_to_first_seen_witness :
  ∃ r calls,
    match_fingerprints tied_catalogue default movie_postings 5
      = (returns (Some r), calls) ∧
    ∃ before best after,
      scores_of tied_catalogue movie_postings = before ++ best :: after ∧
      r_media_id r = se_media_id best ∧
      r_confidence r = se_score best ∧
      (∀ e, In e before → se_score e < r_confidence r) ∧
      (∀ e, In e after → se_score e ≤ r_confidence r) ∧
      map se_media_id (scores_of tied_catalogue movie_postings) =
        first_seen
          (matching_ids movie_postings
             (search_fingerprints tied_catalogue (map fst movie_postings))).
Proof.
  eexists _, _. split; [vm_compute; reflexivity|].
  eapply (tie_goes_to_first_seen tied_catalogue default movie_postings 5).
  vm_compute. reflexivity.
Defined.

(** C7.  When every per-work histogram score of a query is below
    [min_confidence] (so the best one is), [match_clip] returns [None]. *)
Theorem below_min_confidence_returns_None db fingerprinter
    query_fingerprints min_confidence :
  (∀ e, In e (scores_of db query_fingerprints) →
        se_score e < min_confidence) →
  (match_fingerprints db fingerprinter query_fingerprints min_confidence).1
    = returns None.
Proof.
  intros Hlow.
  destruct (py_max se_score
              (_score_matches query_fingerprints
                 (search_fingerprints db (map fst query_fingerprints))))
    as [best|] eqn:Hbest.
  - eapply match_fingerprints_gate; [exact Hbest|].
    apply best_of_scores in Hbest as (before & after & Heq & _).
    apply Hlow. unfold scores_of. rewrite Heq.
    apply in_or_app. right. by left.
  - unfold match_fingerprints.
    destruct query_fingerprints as [|fp query_fingerprints]; [done|].
    set (q := fp :: query_fingerprints) in *.
    destruct (search_fingerprints db (map fst q)) as [|m matches]; [done|].
    by rewrite Hbest.
Qed.

Lemma below_min_confidence_returns_None_witness :
  (∀ e, In e (scores_of tied_catalogue movie_postings) → se_score e < 6) ∧
  (match_fingerprints tied_catalogue default movie_postings 6).1
    = returns None.
Proof.
  assert (Hlow : ∀ e, In e (scores_of tied_catalogue movie_postings) →
                      se_score e < 6).
  { intros e He. vm_compute in He.
    destruct He as [<-|[<-|[]]]; vm_compute; reflexivity. }
  split; [exact Hlow|].
  apply (below_min_confidence_returns_None
           tied_catalogue default movie_postings 6 Hlow).
Defined.

(** [match_clip], from the spectrogram of the clip, with the default
    threshold of 5. *)
Corollary match_clip_gate sha1 db spectrogram best :
  py_max se_score
    (_score_matches (fingerprint_spectrogram sha1 default spectrogram)
       (search_fingerprints db
          (map fst (fingerprint_spectrogram sha1 default spectrogram))))
    = Some best →
  se_score best < 5 →
  (match_clip sha1 db spectrogram 5).1 = returns None.
Proof. apply match_fingerprints_gate. Qed.



(** * Further properties *)

Import MoreSamples Reports App.

(** ** The hasher, continued *)

Lemma length_take_while {A : Type} (f : A → bool) (l : list A) :
  (length (take_while f l) ≤ length l)%nat.
Proof.
  induction l as [|x l IH]; simpl; [lia|]. destruct (f x); simpl; lia.
Qed.

Lemma length_flat_map_bound {A B : Type} (f : A → list B) (k : nat)
    (l : list A) :
  (∀ a, (length (f a) ≤ k)%nat) →
  (length (flat_map f l) ≤ length l * k)%nat.
Proof.
  intros Hf. induction l as [|a l IH]; simpl; [lia|].
  rewrite length_app. specialize (Hf a). lia.
Qed.

Lemma length_anchor_landmarks self peaks i :
  (length (anchor_landmarks self peaks i) ≤
   Nat.min (fan_value self - 1) (length peaks - (i + 1)))%nat.
Proof.
  unfold anchor_landmarks, targets. rewrite length_map.
  etransitivity; [apply length_take_while|].
  by rewrite candidates_length.
Qed.

(** The hash budget: at most [fan_value - 1] postings per peak, and none
    at all from fewer than two peaks. *)
Theorem generate_hashes_count (sha1 : string → string)
    (self : AudioFingerprinter) (peaks : list peak) :
  (length (generate_hashes sha1 self peaks) ≤
   length peaks * (fan_value self - 1))%nat ∧
  ((length peaks ≤ 1)%nat → generate_hashes sha1 self peaks = []).
Proof.
  rewrite generate_hashes_landmarks, length_map, landmarks_flat_map.
  pose proof (Permutation_length (sort_by_time_perm peaks)) as Hlen.
  split.
  - etransitivity; [apply (length_flat_map_bound _ (fan_value self - 1))|].
    + intros i. pose proof (length_anchor_landmarks self
                              (sort_by_time peaks) i). lia.
    + unfold py_range. rewrite length_seq. lia.
  - intros Hshort.
    assert (Hnil : flat_map (anchor_landmarks self (sort_by_time peaks))
                     (py_range 0 (length (sort_by_time peaks))) = []).
    { apply length_zero_iff_nil, Nat.le_0_r.
      etransitivity; [apply (length_flat_map_bound _ 0)|lia].
      intros i. pose proof (length_anchor_landmarks self
                              (sort_by_time peaks) i). lia. }
    by rewrite Hnil.
Qed.

Lemma in_anchor_landmarks self peaks i lm :
  In lm (anchor_landmarks self peaks i) →
  lm_time1 lm = time_of (nth i peaks (0, 0)).
Proof.
  unfold anchor_landmarks. by intros (q & <- & _)%in_map_iff.
Qed.

Lemma StronglySorted_constant {A : Type} (R : A → A → Prop) (l : list A) :
  (∀ x y, In x l → In y l → R x y) → StronglySorted R l.
Proof.
  induction l as [|a l IH]; intros HR; constructor.
  - apply IH. intros x y Hx Hy. apply HR; by right.
  - apply Forall_forall. intros y Hy%list_elem_of_In.
    apply HR; [by left | by right].
Qed.

(** Postings come out by ascending anchor time, and every anchor time is
    the frame index of one of the peaks given. *)
Theorem generate_hashes_anchor_times (sha1 : string → string)
    (self : AudioFingerprinter) (peaks : list peak) :
  StronglySorted Z.le (map snd (generate_hashes sha1 self peaks)) ∧
  ∀ fp, In fp (generate_hashes sha1 self peaks) →
        In fp.2 (map time_of peaks).
Proof.
  rewrite generate_hashes_landmarks, landmarks_flat_map.
  set (sorted := sort_by_time peaks).
  split.
  - rewrite map_map. cbn [posting_of snd].
    apply (StronglySorted_fmap _ (λ a b, lm_time1 a ≤ lm_time1 b) Z.le);
      [done|].
    apply (StronglySorted_flat_map
             (λ i i', (i < i' < length sorted)%nat)).
    + unfold py_range. rewrite Nat.sub_0_r.
      generalize (seq_sorted 0 (length sorted)).
      assert (Hin : ∀ i, In i (seq 0 (length sorted)) →
                         (i < length sorted)%nat)
        by (intros i Hi%in_seq; lia).
      revert Hin. generalize (seq 0 (length sorted)) as l.
      induction l as [|a l IH]; intros Hin Hl; constructor.
      * apply IH; [intros i Hi; apply Hin; by right|].
        by apply StronglySorted_inv in Hl as [? _].
      * apply StronglySorted_inv in Hl as [_ Ha].
        rewrite Forall_forall in Ha |- *. intros i Hi.
        split; [by apply Ha|]. apply Hin. right. by apply list_elem_of_In.
    + intros i _. apply StronglySorted_constant. intros x y Hx Hy.
      apply in_anchor_landmarks in Hx, Hy. lia.
    + intros i i' x y Hii' Hx Hy.
      apply in_anchor_landmarks in Hx, Hy. rewrite Hx, Hy.
      apply (sorted_nth_le sorted i i' (0, 0)); [|done].
      apply sort_by_time_sorted.
  - intros fp (lm & <- & Hlm)%in_map_iff. cbn [posting_of snd].
    apply in_flat_map in Hlm as (i & Hi%in_py_range & Hlm).
    rewrite (in_anchor_landmarks _ _ _ _ Hlm).
    apply in_map.
    eapply Permutation_in; [apply sort_by_time_perm|].
    apply nth_In. unfold sorted in Hi. lia.
Qed.

(** *** The break skips nothing inside the window *)

Lemma take_while_filter_sorted {A : Type} (R : A → A → Prop)
    (f : A → bool) (l : list A) :
  StronglySorted R l →
  (∀ x y, R x y → f x = false → f y = false) →
  take_while f l = List.filter f l.
Proof.
  intros Hl Hdown. induction Hl as [|a l Hl IH Ha]; simpl; [done|].
  destruct (f a) eqn:Hfa; [by rewrite IH|].
  symmetry. apply filter_none. intros y Hy.
  rewrite Forall_forall in Ha. eapply Hdown; [|exact Hfa].
  by apply Ha, list_elem_of_In.
Qed.

Lemma candidates_sorted self peaks i :
  StronglySorted time_le peaks →
  StronglySorted time_le (candidates self peaks i).
Proof.
  intros Hsorted. unfold candidates, py_range.
  set (hi := Nat.min (i + fan_value self) (length peaks)).
  assert (Hhi : (hi ≤ length peaks)%nat) by lia.
  generalize (i + 1)%nat as lo. intros lo.
  remember (hi - lo)%nat as n eqn:Hn.
  revert lo Hn. induction n as [|n IH]; intros lo Hn; simpl; constructor.
  - apply IH. lia.
  - apply Forall_forall. intros q Hq%list_elem_of_In.
    apply in_map_iff in Hq as (j & <- & Hj%in_seq).
    apply sorted_nth_le; [done | lia].
Qed.

(** For each anchor the targets paired are all the candidates within the
    time window: leaving the inner loop at the first candidate beyond it
    drops no candidate that is inside. *)
Theorem break_keeps_every_target_in_window (self : AudioFingerprinter)
    (peaks : list peak) (i : nat) :
  let sorted := sort_by_time peaks in
  targets self sorted i =
  List.filter (within_window self (nth i sorted (0, 0)))
              (candidates self sorted i).
Proof.
  cbv zeta. unfold targets.
  apply (take_while_filter_sorted time_le).
  - apply candidates_sorted, sort_by_time_sorted.
  - intros x y Hxy. unfold within_window, time_le in *.
    rewrite !negb_false_iff, !Z.gtb_gt. lia.
Qed.

(** *** Independence of the order of the peaks *)

Lemma NoDup_map_inj_on {A B : Type} (f : A → B) (l : list A) (x y : A) :
  NoDup (map f l) → In x l → In y l → f x = f y → x = y.
Proof.
  induction l as [|a l IH]; simpl; [done|].
  intros [Ha Hl]%NoDup_cons [<-|Hx] [<-|Hy] Hxy; auto.
  - exfalso. apply Ha. rewrite Hxy. apply list_elem_of_In. by apply in_map.
  - exfalso. apply Ha. rewrite <- Hxy. apply list_elem_of_In. by apply in_map.
Qed.

Lemma sort_by_time_unique (peaks peaks' : list peak) :
  NoDup (map time_of peaks) → Permutation peaks peaks' →
  sort_by_time peaks = sort_by_time peaks'.
Proof.
  intros Hnd Hperm.
  apply (StronglySorted_unique_strong time_le);
    [|apply sort_by_time_sorted..|].
  - intros x1 x2 Hx1 Hx2 H12 H21.
    apply (NoDup_map_inj_on time_of peaks); [done| | |unfold time_le in *; lia].
    + apply list_elem_of_In. by rewrite <- (sort_by_time_perm peaks).
    + apply list_elem_of_In.
      by rewrite Hperm, <- (sort_by_time_perm peaks').
  - by rewrite !sort_by_time_perm.
Qed.

(** When no two peaks share a frame, the postings do not depend on the
    order in which the peaks are handed over. *)
Theorem generate_hashes_order_independent (sha1 : string → string)
    (self : AudioFingerprinter) (peaks peaks' : list peak) :
  NoDup (map time_of peaks) → Permutation peaks peaks' →
  generate_hashes sha1 self peaks = generate_hashes sha1 self peaks'.
Proof.
  intros Hnd Hperm.
  rewrite !generate_hashes_landmarks, !landmarks_flat_map.
  by rewrite (sort_by_time_unique peaks peaks' Hnd Hperm).
Qed.

Lemma generate_hashes_order_independent_witness :
  NoDup (map time_of six_peaks) ∧
  Permutation six_peaks (reverse six_peaks) ∧
  generate_hashes (λ s, s) default six_peaks =
  generate_hashes (λ s, s) default (reverse six_peaks).
Proof.
  assert (Hnd : NoDup (map time_of six_peaks)).
  { apply (bool_decide_unpack _). by vm_compute. }
  assert (Hperm : Permutation six_peaks (reverse six_peaks))
    by (symmetry; apply reverse_Permutation).
  split; [exact Hnd|]. split; [exact Hperm|].
  apply (generate_hashes_order_independent (λ s, s) default
           six_peaks (reverse six_peaks) Hnd Hperm).
Defined.

(** *** The text that is hashed *)

Lemma contains_char_app c (s1 s2 : string) :
  contains_char c (s1 +:+ s2) = contains_char c s1 || contains_char c s2.
Proof.
  induction s1 as [|a s1 IH]; [done|].
  rewrite append_cons. simpl. by rewrite IH, orb_assoc.
Qed.

Lemma pretty_N_go_no_bar (x : N) :
  ∀ s, contains_char "|"%char s = false →
       contains_char "|"%char (pretty_N_go x s) = false.
Proof.
  induction (N.lt_wf_0 x) as [x _ IH]. intros s Hs.
  assert (x = 0 ∨ 0 < x)%N as [->|Hpos] by lia; [done|].
  rewrite pretty_N_go_step by done. apply IH; [by apply N.div_lt|].
  simpl. rewrite Hs, orb_false_r.
  unfold pretty_N_char. by repeat case_match.
Qed.

Lemma pretty_Z_no_bar (z : Z) : contains_char "|"%char (pretty z) = false.
Proof.
  assert (HN : ∀ n : N, contains_char "|"%char (pretty n) = false).
  { intros n. unfold pretty, pretty_N.
    case_decide; [done | by apply pretty_N_go_no_bar]. }
  destruct z as [|p|p]; [done | apply HN |].
  change (pretty (Z.neg p)) with ("-" +:+ pretty (N.pos p)).
  by rewrite contains_char_app, (HN (N.pos p)).
Qed.

Lemma split_at_bar (a a' r r' : string) :
  contains_char "|"%char a = false → contains_char "|"%char a' = false →
  a +:+ "|" +:+ r = a' +:+ "|" +:+ r' → a = a' ∧ r = r'.
Proof.
  revert a'. induction a as [|c a IH]; intros [|c' a'] Ha Ha' Heq;
    simpl in Ha, Ha'.
  - change (String "|" r = String "|" r') in Heq. by injection Heq as ->.
  - change (String "|" r = String c' (a' +:+ "|" +:+ r')) in Heq.
    injection Heq as <- _. by rewrite Ascii.eqb_refl in Ha'.
  - change (String c (a +:+ "|" +:+ r) = String "|" r') in Heq.
    injection Heq as -> _. by rewrite Ascii.eqb_refl in Ha.
  - change (String c (a +:+ "|" +:+ r) = String c' (a' +:+ "|" +:+ r'))
      in Heq.
    injection Heq as -> Heq.
    apply orb_false_elim in Ha as [_ Ha], Ha' as [_ Ha'].
    destruct (IH a' Ha Ha' Heq) as [-> ->]. done.
Qed.

(** The text [f"{freq1}|{freq2}|{time_delta}"] determines the triple: two
    landmarks share a hash only if they agree on both frequencies and on
    the time delta, or SHA-1 collides. *)
Theorem hash_string_inj (freq1 freq2 time_delta freq1' freq2' time_delta' : Z) :
  hash_string freq1 freq2 time_delta = hash_string freq1' freq2' time_delta' →
  freq1 = freq1' ∧ freq2 = freq2' ∧ time_delta = time_delta'.
Proof.
  unfold hash_string. intros Heq.
  apply split_at_bar in Heq as [H1 Heq]; [|apply pretty_Z_no_bar..].
  apply split_at_bar in Heq as [H2 H3]; [|apply pretty_Z_no_bar..].
  by rewrite (inj pretty _ _ H1), (inj pretty _ _ H2), (inj pretty _ _ H3).
Qed.

Lemma hash_string_inj_witness :
  hash_string 10 20 1 = hash_string 10 20 1 ∧
  (10 = 10 ∧ 20 = 20 ∧ 1 = 1).
Proof.
  split; [reflexivity|].
  apply (hash_string_inj 10 20 1 10 20 1). reflexivity.
Defined.

(** ** The peak extractor, continued *)

Lemma StronglySorted_row_major_NoDup (l : list peak) :
  StronglySorted row_major_lt l → NoDup l.
Proof.
  induction 1 as [|p l Hl IH Hp]; constructor; [|done].
  intros Hin. rewrite Forall_forall in Hp. apply Hp in Hin.
  unfold row_major_lt in Hin. lia.
Qed.

(** What [find_peaks] reports, in full: a cell of the spectrogram above
    [min_amplitude] for which exactly one of the two holds: it equals the
    maximum of its footprint, or an exactly-zero cell lies in its
    footprint.  Nothing at or below the floor or outside the spectrogram
    is reported, and no cell is reported twice. *)
Theorem find_peaks_exactly (self : AudioFingerprinter) (M : ndarray Q) :
  (∀ f t,
     In (f, t) (find_peaks self M) ↔
     in_array M f t ∧
     (min_amplitude self < cell M f t)%Q ∧
     ((footprint_maximum self M f t ∧ ¬ zero_in_footprint self M f t) ∨
      (¬ footprint_maximum self M f t ∧ zero_in_footprint self M f t))) ∧
  NoDup (find_peaks self M).
Proof.
  split.
  - intros f t. rewrite in_find_peaks. split.
    + intros (Hin & Hxor & Hamp). split; [done|]. split; [done|].
      pose proof (local_max_at_iff self M f t Hin) as Hlm.
      pose proof (eroded_background_at_iff self M f t) as Her.
      destruct (local_max_at self M f t), (eroded_background_at self M f t);
        simpl in Hxor; try discriminate.
      * left. split; [by apply Hlm|]. intros Hz%Her. discriminate.
      * right. split; [intros Hmax%Hlm; discriminate | by apply Her].
    + intros (Hin & Hamp & Hcase). split; [done|]. split; [|done].
      pose proof (local_max_at_iff self M f t Hin) as Hlm.
      pose proof (eroded_background_at_iff self M f t) as Her.
      destruct (local_max_at self M f t), (eroded_background_at self M f t);
        simpl; try done.
      * exfalso. destruct Hcase as [[_ Hz]|[Hmax _]];
          [apply Hz, Her | apply Hmax, Hlm]; done.
      * destruct Hcase as [[Hmax%Hlm _]|[_ Hz%Her]]; discriminate.
  - apply StronglySorted_row_major_NoDup.
    unfold find_peaks. cbv zeta.
    rewrite (masked_filter (λ ij : Z * Z, cell M ij.1 ij.2)
               (λ a, negb (Qle_bool a (min_amplitude self)))).
    apply StronglySorted_filter, np_where_row_major.
Qed.

Lemma nil_of_no_element {A : Type} (l : list A) :
  (∀ x, ¬ In x l) → l = [].
Proof.
  destruct l as [|a l]; [done|]. intros Hno. destruct (Hno a). by left.
Qed.

(** A clip in which no magnitude exceeds the amplitude floor (silence, for
    one) has no peaks and no postings, and [match_clip] answers [None]
    without a call on the store. *)
Theorem quiet_clip_is_not_searched (sha1 : string → string)
    (db : FingerprintDatabase) (M : ndarray Q) (min_confidence : Z) :
  (∀ f t, in_array M f t → (cell M f t <= min_amplitude default)%Q) →
  find_peaks default M = [] ∧
  fingerprint_spectrogram sha1 default M = [] ∧
  match_clip sha1 db M min_confidence = (returns None, []).
Proof.
  intros Hquiet.
  assert (Hnone : find_peaks default M = []).
  { apply nil_of_no_element. intros [f t] (Hin & _ & Hamp)%in_find_peaks.
    apply Hquiet in Hin. by apply Qlt_not_le in Hamp. }
  assert (Hfp : fingerprint_spectrogram sha1 default M = []).
  { unfold fingerprint_spectrogram. cbv zeta. by rewrite Hnone. }
  split; [done|]. split; [done|].
  unfold match_clip. cbv zeta. by rewrite Hfp.
Qed.

Lemma quiet_clip_is_not_searched_witness :
  (∀ f t, in_array silence f t →
          (cell silence f t <= min_amplitude default)%Q) ∧
  (find_peaks default silence = [] ∧
   fingerprint_spectrogram (λ s, s) default silence = [] ∧
   match_clip (λ s, s) tied_catalogue silence 5 = (returns None, [])).
Proof.
  assert (Hquiet : ∀ f t, in_array silence f t →
                          (cell silence f t <= min_amplitude default)%Q).
  { intros f t [Hf Ht]. cbn in Hf, Ht.
    assert (f = 0 ∨ f = 1) as [-> | ->] by lia;
      assert (t = 0 ∨ t = 1 ∨ t = 2) as [-> | [-> | ->]] by lia;
      vm_compute; discriminate. }
  split; [exact Hquiet|].
  apply (quiet_clip_is_not_searched (λ s, s) tied_catalogue silence 5 Hquiet).
Defined.

(** ** The catalogue, continued *)

Lemma set_fingerprint_count_id count media_id r :
  m_id (set_fingerprint_count count media_id r) = m_id r.
Proof. unfold set_fingerprint_count. by destruct (m_id r =? media_id). Qed.

Lemma set_fingerprint_count_path count media_id r :
  m_file_path (set_fingerprint_count count media_id r) = m_file_path r.
Proof. unfold set_fingerprint_count. by destruct (m_id r =? media_id). Qed.

Lemma add_fingerprints_ids db media_id fps :
  map m_id (media (add_fingerprints db media_id fps)) = map m_id (media db).
Proof.
  unfold add_fingerprints. cbn [media]. rewrite map_map.
  apply map_ext. intros r. apply set_fingerprint_count_id.
Qed.

Lemma add_fingerprints_paths db media_id fps :
  map m_file_path (media (add_fingerprints db media_id fps)) =
  map m_file_path (media db).
Proof.
  unfold add_fingerprints. cbn [media]. rewrite map_map.
  apply map_ext. intros r. apply set_fingerprint_count_path.
Qed.

Lemma in_new_rows db media_id fps p :
  In p (fingerprints (add_fingerprints db media_id fps)) →
  In p (fingerprints db) ∨ f_media_id p = media_id.
Proof.
  unfold add_fingerprints. cbn [fingerprints].
  intros [Hp|Hp]%in_app_or; [by left | right].
  apply list_elem_of_In, elem_of_lookup_imap in Hp
    as (k & d & -> & Hd%list_elem_of_lookup_2%list_elem_of_In).
  by apply in_map_iff in Hd as (fp & <- & _).
Qed.

Lemma find_app_None {A : Type} (f : A → bool) (l1 l2 : list A) :
  List.find f l1 = None → List.find f (l1 ++ l2) = List.find f l2.
Proof.
  induction l1 as [|a l1 IH]; simpl; [done|].
  destruct (f a); [done | exact IH].
Qed.

(** [add_media] twice on one path: the second call returns the id of the
    first and changes nothing, whatever title or type it is given. *)
Theorem add_media_twice db title media_type file_path season episode
    title' media_type' season' episode' :
  let first := add_media db title media_type file_path season episode in
  add_media first.2 title' media_type' file_path season' episode' = first.
Proof.
  cbv zeta. unfold add_media at 2 3.
  destruct (List.find _ (media db)) as [r|] eqn:Hfind; cbn [fst snd].
  - unfold add_media. by rewrite Hfind.
  - unfold add_media. cbn [media].
    rewrite find_app_None by done. cbn [List.find m_file_path].
    by rewrite String.eqb_refl.
Qed.

Lemma find_id_set_fingerprint_count count media_id x (l : list media_row) :
  List.find (λ r, m_id r =? x) (map (set_fingerprint_count count media_id) l) =
  set_fingerprint_count count media_id <$> List.find (λ r, m_id r =? x) l.
Proof.
  induction l as [|r l IH]; simpl; [done|].
  rewrite set_fingerprint_count_id. by destruct (m_id r =? x).
Qed.

Lemma find_id_None (l : list media_row) (x bound : Z) :
  (∀ r, In r l → m_id r ≤ bound) → bound < x →
  List.find (λ r, m_id r =? x) l = None.
Proof.
  intros Hb Hx. destruct (List.find _ l) as [r|] eqn:Hfind; [|done].
  apply find_some in Hfind as [Hr Heq%Z.eqb_eq]. apply Hb in Hr. lia.
Qed.

(** A work ingested from a path the catalogue does not hold gets the next
    id, above every id in use; [get_media_info] on that id then returns
    the metadata given and the number of postings, and answers as before
    on every other id. *)
Theorem ingest_then_get_media_info db md file_path fps :
  ids_bounded db → ¬ path_taken db file_path →
  let media_id := (ingest db md file_path fps).1 in
  let db' := (ingest db md file_path fps).2 in
  media_id = media_seq db + 1 ∧
  (∀ r, In r (media db) → m_id r < media_id) ∧
  get_media_info db' media_id =
    Some {| m_id := media_id; m_title := md_title md; m_type := md_type md;
            m_season := md_season md; m_episode := md_episode md;
            m_file_path := file_path;
            m_fingerprint_count := Z.of_nat (length fps) |} ∧
  ∀ other, other ≠ media_id →
           get_media_info db' other = get_media_info db other.
Proof.
  intros [Hm _] Hfree. cbv zeta. unfold ingest, add_media.
  rewrite (find_path_None db file_path Hfree). cbn [fst snd].
  split; [done|]. split; [intros r Hr%Hm; lia|].
  unfold get_media_info, add_fingerprints. cbn [media].
  split.
  - rewrite find_id_set_fingerprint_count, find_app_None
      by (apply (find_id_None _ _ (media_seq db)); [done | lia]).
    cbn [List.find m_id]. rewrite Z.eqb_refl. cbn [fmap option_fmap option_map].
    unfold set_fingerprint_count. cbn [m_id]. by rewrite Z.eqb_refl.
  - intros other Hother. rewrite find_id_set_fingerprint_count.
    destruct (List.find (λ r, m_id r =? other) (media db)) as [r|] eqn:Hfind.
    + apply find_some in Hfind as Hr. destruct Hr as [Hr Heq%Z.eqb_eq].
      assert (Hfound : List.find (λ r, m_id r =? other)
                (media db ++
                 [{| m_id := media_seq db + 1; m_title := md_title md;
                     m_type := md_type md; m_season := md_season md;
                     m_episode := md_episode md; m_file_path := file_path;
                     m_fingerprint_count := 0 |}]) = Some r).
      { clear Hr. revert Hfind. generalize (media db) as l.
        induction l as [|a l IH]; simpl; [done|].
        destruct (m_id a =? other); [done | exact IH]. }
      rewrite Hfound. cbn [fmap option_fmap option_map]. f_equal.
      unfold set_fingerprint_count.
      destruct (Z.eqb_spec (m_id r) (media_seq db + 1)); [lia | done].
    + rewrite find_app_None by done. cbn [List.find m_id].
      destruct (Z.eqb_spec (media_seq db + 1) other); [lia | done].
Qed.

Lemma ingest_then_get_media_info_witness :
  ids_bounded create ∧ ¬ path_taken create movie_path ∧
  (let media_id := (ingest create movie_metadata movie_path movie_postings).1 in
   let db' := (ingest create movie_metadata movie_path movie_postings).2 in
   media_id = media_seq create + 1 ∧
   (∀ r, In r (media create) → m_id r < media_id) ∧
   get_media_info db' media_id =
     Some {| m_id := media_id; m_title := md_title movie_metadata;
             m_type := md_type movie_metadata;
             m_season := md_season movie_metadata;
             m_episode := md_episode movie_metadata;
             m_file_path := movie_path;
             m_fingerprint_count := Z.of_nat (length movie_postings) |} ∧
   ∀ other, other ≠ media_id →
            get_media_info db' other = get_media_info create other).
Proof.
  assert (Hb : ids_bounded create) by apply create_consistent.
  assert (Hfree : ¬ path_taken create movie_path) by (by intros []).
  split; [exact Hb|]. split; [exact Hfree|].
  apply (ingest_then_get_media_info create movie_metadata movie_path
           movie_postings Hb Hfree).
Defined.

(** *** What every run of the ingestion keeps *)

Lemma find_path_not_taken db file_path :
  List.find (λ r, String.eqb (m_file_path r) file_path) (media db) = None →
  ¬ path_taken db file_path.
Proof.
  intros Hfind (r & Hfound & _)%find_path_Some. congruence.
Qed.

Lemma add_media_catalogue_ok db title media_type file_path season episode :
  catalogue_ok db →
  let result := add_media db title media_type file_path season episode in
  catalogue_ok result.2 ∧
  (∃ r, In r (media result.2) ∧ m_id r = result.1) ∧
  (∀ q, path_taken result.2 q ↔ path_taken db q ∨ q = file_path) ∧
  fingerprints result.2 = fingerprints db.
Proof.
  intros ([Hm Hf] & Hids & Hpaths & Href). cbv zeta. unfold add_media.
  destruct (List.find _ (media db)) as [r|] eqn:Hfind; cbn [fst snd].
  - apply find_some in Hfind as [Hr Heq%String.eqb_eq].
    split; [done|]. split; [by exists r|]. split; [|done].
    intros q. split; [by left|]. intros [?| ->]; [done|].
    unfold path_taken. rewrite <- Heq. by apply in_map.
  - apply find_path_not_taken in Hfind.
    split; [|split; [|split; [|done]]].
    + split; [split|split; [|split]]; cbn [media fingerprints media_seq].
      * intros r [Hr|[<-|[]]]%in_app_or; [apply Hm in Hr; lia | simpl; lia].
      * intros p Hp%Hf. lia.
      * rewrite map_app. apply NoDup_app. split; [done|].
        split; [|repeat constructor; by intros []%elem_of_nil].
        intros x Hx%list_elem_of_In [->|[]%elem_of_nil]%elem_of_cons.
        apply in_map_iff in Hx as (r & Hid & Hr%Hm). cbn [m_id] in Hid. lia.
      * rewrite map_app. apply NoDup_app. split; [done|].
        split; [|repeat constructor; by intros []%elem_of_nil].
        intros x Hx%list_elem_of_In [->|[]%elem_of_nil]%elem_of_cons.
        by apply Hfind.
      * intros p (r & Hr & Hid)%Href. exists r.
        split; [apply in_or_app; by left | done].
    + eexists. split; [apply in_or_app; right; by left | done].
    + intros q. unfold path_taken. cbn [media]. rewrite map_app, in_app_iff.
      simpl. intuition.
Qed.

Lemma add_fingerprints_catalogue_ok db media_id fps :
  catalogue_ok db → (∃ r, In r (media db) ∧ m_id r = media_id) →
  catalogue_ok (add_fingerprints db media_id fps).
Proof.
  intros ([Hm Hf] & Hids & Hpaths & Href) (r0 & Hr0 & Hid0).
  assert (Hkeep : ∀ r, In r (media db) →
            ∃ r', In r' (media (add_fingerprints db media_id fps)) ∧
                  m_id r' = m_id r).
  { intros r Hr. exists (set_fingerprint_count (Z.of_nat (length fps))
                           media_id r).
    split; [by apply in_map | apply set_fingerprint_count_id]. }
  split; [split|split; [|split]].
  - intros r (r1 & <- & Hr1)%in_map_iff.
    rewrite set_fingerprint_count_id. by apply Hm.
  - intros p [Hp| ->]%in_new_rows; [by apply Hf|].
    rewrite <- Hid0. by apply Hm.
  - by rewrite add_fingerprints_ids.
  - by rewrite add_fingerprints_paths.
  - intros p [Hp| ->]%in_new_rows.
    + destruct (Href p Hp) as (r & Hr & Hid).
      destruct (Hkeep r Hr) as (r' & Hr' & Hid'). exists r'.
      split; [done | congruence].
    + destruct (Hkeep r0 Hr0) as (r' & Hr' & Hid'). exists r'.
      split; [done | congruence].
Qed.

Lemma process_file_catalogue_ok db af :
  catalogue_ok db →
  catalogue_ok (process_file db af) ∧
  (∀ q, path_taken (process_file db af) q ↔
        path_taken db q ∨ In q (map fst (fingerprinted [af]))) ∧
  length (fingerprints (process_file db af)) =
    (length (fingerprints db) +
     list_sum (map (λ pf, length pf.2) (fingerprinted [af])))%nat.
Proof.
  intros Hok. unfold process_file, fingerprinted. cbn [flat_map].
  destruct (af_fingerprints af) as [fps|]; cbn [app map fst snd list_sum].
  - unfold ingest.
    destruct (add_media_catalogue_ok db (md_title (af_metadata af))
                (md_type (af_metadata af)) (af_path af)
                (md_season (af_metadata af)) (md_episode (af_metadata af)) Hok)
      as (Hok1 & Hrow & Hpaths & Hfps).
    destruct (add_media _ _ _ _ _ _) as [media_id db1]. cbn [fst snd] in *.
    split; [by apply add_fingerprints_catalogue_ok|]. split.
    + intros q. unfold path_taken. rewrite add_fingerprints_paths.
      rewrite (Hpaths q). simpl. intuition.
    + unfold add_fingerprints. cbn [fingerprints].
      rewrite length_app, length_imap, length_map, Hfps. simpl. lia.
  - split; [done|]. split; [|simpl; lia]. intros q. simpl. intuition.
Qed.

Lemma build_database_catalogue_ok (audio_files : list audio_file) :
  ∀ db, catalogue_ok db →
    catalogue_ok (build_database db audio_files) ∧
    (∀ q, path_taken (build_database db audio_files) q ↔
          path_taken db q ∨ In q (map fst (fingerprinted audio_files))) ∧
    length (fingerprints (build_database db audio_files)) =
      (length (fingerprints db) +
       list_sum (map (λ pf, length pf.2) (fingerprinted audio_files)))%nat.
Proof.
  induction audio_files as [|af l IH]; intros db Hok.
  - split; [done|]. split; [|simpl; lia]. intros q. simpl. intuition.
  - destruct (process_file_catalogue_ok db af Hok) as (Hok1 & Hpaths1 & Hlen1).
    destruct (IH (process_file db af) Hok1) as (Hok2 & Hpaths2 & Hlen2).
    assert (Hstep : build_database db (af :: l) =
                    build_database (process_file db af) l) by done.
    assert (Hsplit : fingerprinted (af :: l) =
                     fingerprinted [af] ++ fingerprinted l).
    { unfold fingerprinted. simpl. by rewrite app_nil_r. }
    rewrite Hstep, Hsplit.
    split; [done|]. split.
    + intros q. rewrite (Hpaths2 q), (Hpaths1 q), map_app, in_app_iff. tauto.
    + rewrite Hlen2, Hlen1, map_app, list_sum_app. lia.
Qed.

Lemma create_catalogue_ok : catalogue_ok create.
Proof.
  split; [apply create_consistent|].
  repeat split; try constructor. intros p [].
Qed.

(** Whatever files a run of [build_database] meets, repeated or failing:
    a catalogue in order stays in order.  In particular no two works
    share a source path or an id, and every posting belongs to a work. *)
Theorem build_database_keeps_catalogue_ok db (audio_files : list audio_file) :
  catalogue_ok db → catalogue_ok (build_database db audio_files).
Proof.
  revert db. induction audio_files as [|af l IH]; intros db Hok; [done|].
  assert (Hstep : build_database db (af :: l) =
                  build_database (process_file db af) l) by done.
  rewrite Hstep. apply IH.
  by destruct (process_file_catalogue_ok db af Hok) as [Hok' _].
Qed.

Lemma build_database_keeps_catalogue_ok_witness :
  catalogue_ok create ∧
  catalogue_ok (build_database create [movie_file; movie_file]).
Proof.
  split; [apply create_catalogue_ok|].
  apply (build_database_keeps_catalogue_ok create [movie_file; movie_file]).
  apply create_catalogue_ok.
Defined.

(** *** Insert, then look up *)

Lemma search_new_rows (media_id : Z) (query_hashes : list string)
    (fps : list posting) :
  ∀ mk : nat → posting → fingerprint_row,
    (∀ k fp, f_hash (mk k fp) = fp.1 ∧ f_time_offset (mk k fp) = fp.2 ∧
             f_media_id (mk k fp) = media_id) →
    map (λ r, (f_media_id r, f_hash r, f_time_offset r))
        (List.filter (λ r, bool_decide (f_hash r ∈ query_hashes))
                     (imap mk fps)) =
    rows_for media_id query_hashes fps.
Proof.
  unfold rows_for. induction fps as [|fp fps IH]; intros mk Hmk; [done|].
  cbn [imap List.filter]. destruct (Hmk 0%nat fp) as (Hh & Ht & Hid).
  rewrite Hh. specialize (IH (mk ∘ S) (λ k, Hmk (S k))).
  destruct (bool_decide (fp.1 ∈ query_hashes)); cbn [map].
  - by rewrite IH, Hh, Ht, Hid.
  - exact IH.
Qed.

Lemma matching_rows_add_fingerprints db media_id fps query_hashes :
  matching_rows (add_fingerprints db media_id fps) query_hashes =
  matching_rows db query_hashes ++ rows_for media_id query_hashes fps.
Proof.
  unfold matching_rows, add_fingerprints. cbn [fingerprints].
  rewrite List.filter_app, map_app, imap_fmap. f_equal.
  by apply search_new_rows.
Qed.


(** A posting stored later under a lower hash is returned first. *)
Example search_returns_lower_hash_first :
  search_fingerprints
    (add_fingerprints (add_fingerprints create 1 [("bbb", 1)]) 2 [("aaa", 3)])
    ["aaa"; "bbb"] = [(2, "aaa", 3); (1, "bbb", 1)].
Proof. vm_compute. reflexivity. Qed.

(** *** Statistics *)

(** After a run of [build_database] on a catalogue in order,
    [get_statistics] counts one work per distinct source path (those
    held before and those of the files fingerprinted in the run) and one
    posting per posting of each fingerprinted file, a repeated file
    counting again. *)
Theorem statistics_after_build db (audio_files : list audio_file) :
  catalogue_ok db →
  let stats := get_statistics (build_database db audio_files) in
  total_media stats =
    Z.of_nat (length (remove_dups (map m_file_path (media db) ++
                                   map fst (fingerprinted audio_files)))) ∧
  total_fingerprints stats =
    total_fingerprints (get_statistics db) +
    Z.of_nat (list_sum (map (λ pf, length pf.2) (fingerprinted audio_files))).
Proof.
  intros Hok. cbv zeta.
  destruct (build_database_catalogue_ok audio_files db Hok)
    as ((_ & _ & Hnd & _) & Hpaths & Hlen).
  unfold get_statistics. cbn [total_media total_fingerprints].
  split; [|rewrite Hlen; lia].
  f_equal. rewrite <- (length_map m_file_path).
  apply Permutation_length, list.NoDup_Permutation;
    [done | apply NoDup_remove_dups|].
  intros q. rewrite elem_of_remove_dups, !list_elem_of_In, in_app_iff.
  apply Hpaths.
Qed.

Lemma statistics_after_build_witness :
  catalogue_ok create ∧
  (let stats := get_statistics
                  (build_database create [movie_file; movie_file]) in
   total_media stats =
     Z.of_nat (length (remove_dups
       (map m_file_path (media create) ++
        map fst (fingerprinted [movie_file; movie_file])))) ∧
   total_fingerprints stats =
     total_fingerprints (get_statistics create) +
     Z.of_nat (list_sum (map (λ pf, length pf.2)
                             (fingerprinted [movie_file; movie_file])))).
Proof.
  split; [apply create_catalogue_ok|].
  apply (statistics_after_build create [movie_file; movie_file]).
  apply create_catalogue_ok.
Defined.

(** The two counts by type never exceed the number of works, and add up
    to it exactly when every work is typed ['movie'] or ['tv']. *)
Theorem statistics_by_type db :
  let stats := get_statistics db in
  movies stats + tv_shows stats ≤ total_media stats ∧
  (movies stats + tv_shows stats = total_media stats ↔
   ∀ r, In r (media db) → m_type r = "movie" ∨ m_type r = "tv").
Proof.
  cbv zeta. unfold get_statistics, count_by_type.
  cbn [movies tv_shows total_media].
  induction (media db) as [|r l [IHle IHeq]]; simpl.
  - split; [lia|]. split; [by intros _ r [] | done].
  - destruct (String.eqb_spec (m_type r) "movie") as [Hm|Hm];
      destruct (String.eqb_spec (m_type r) "tv") as [Ht|Ht];
      try (rewrite Hm in Ht; discriminate); simpl.
    + split; [lia|]. split.
      * intros Heq r' [<-|Hr']; [by left|]. apply IHeq; [lia | done].
      * intros Hall. assert (Hl : ∀ r', In r' l →
                               m_type r' = "movie" ∨ m_type r' = "tv")
          by (intros r' Hr'; apply Hall; by right).
        apply IHeq in Hl. lia.
    + split; [lia|]. split.
      * intros Heq r' [<-|Hr']; [by right|]. apply IHeq; [lia | done].
      * intros Hall. assert (Hl : ∀ r', In r' l →
                               m_type r' = "movie" ∨ m_type r' = "tv")
          by (intros r' Hr'; apply Hall; by right).
        apply IHeq in Hl. lia.
    + split; [lia|]. split; [lia|].
      intros Hall. destruct (Hall r); [by left | done..].
Qed.

(** ** The matcher, continued *)

(** The bucket of an offset is a multiple of 10 at most 5 frames away; an
    offset on the grid is its own bucket; an offset half-way between two
    grid points goes to the one that is an even multiple of 10. *)
Theorem bucket_of_offset (delta : Z) :
  let bucket := round_div10 delta * 10 in
  bucket mod 10 = 0 ∧
  Z.abs (bucket - delta) ≤ 5 ∧
  (delta mod 10 = 0 → bucket = delta) ∧
  (delta mod 10 = 5 → bucket mod 20 = 0).
Proof.
  cbv zeta. unfold round_div10.
  pose proof (Z.div_mod delta 10 ltac:(lia)) as Hdm.
  pose proof (Z.mod_pos_bound delta 10 ltac:(lia)) as Hm.
  set (q := delta / 10) in *. set (r := delta mod 10) in *.
  assert (Heven : Z.even q = true → ∃ k, q = 2 * k)
    by (intros He%Z.even_spec; destruct He as [k ->]; by exists k).
  assert (Hodd : Z.even q = false → ∃ k, q = 2 * k + 1).
  { intros He. rewrite <- Z.negb_odd in He. apply negb_false_iff in He.
    apply Z.odd_spec in He as [k ->]. by exists k. }
  destruct (Z.ltb_spec r 5); [|destruct (Z.ltb_spec 5 r)].
  - rewrite Z.mod_mul by lia. repeat split; lia.
  - rewrite Z.mod_mul by lia. repeat split; lia.
  - assert (r = 5) as Hr by lia.
    destruct (Z.even q) eqn:He.
    + destruct (Heven eq_refl) as [k Hk].
      rewrite Z.mod_mul by lia. repeat split; try lia.
      intros _. rewrite Hk. replace (2 * k * 10) with (k * 20) by lia.
      by rewrite Z.mod_mul.
    + destruct (Hodd eq_refl) as [k Hk].
      rewrite Z.mod_mul by lia. repeat split; try lia.
      intros _. rewrite Hk.
      replace ((2 * k + 1 + 1) * 10) with ((k + 1) * 20) by lia.
      by rewrite Z.mod_mul.
Qed.

(** *** The query dictionary *)

Lemma query_fold_lookup (q : list posting) (h : string) :
  ∀ d : gmap string Z,
    ¬ In h (map fst q) →
    foldl (λ d (fp : posting), <[fp.1 := fp.2]> d) d q !! h = d !! h.
Proof.
  induction q as [|[h' t'] q IH]; intros d Hh; [done|].
  cbn [foldl fst snd]. rewrite IH by (intros Hin; apply Hh; by right).
  apply lookup_insert_ne. intros ->. apply Hh. by left.
Qed.

Lemma query_fold_is_Some (q : list posting) (h : string) :
  ∀ d : gmap string Z,
    is_Some (foldl (λ d (fp : posting), <[fp.1 := fp.2]> d) d q !! h) ↔
    is_Some (d !! h) ∨ In h (map fst q).
Proof.
  induction q as [|[h' t'] q IH]; intros d; cbn [foldl fst snd map In].
  - tauto.
  - rewrite IH. destruct (decide (h' = h)) as [->|Hne].
    + rewrite lookup_insert_eq. split; [right; by left | intros _; left; eauto].
    + rewrite lookup_insert_ne by done. tauto.
Qed.

(** A hash that occurs several times in the query is looked up with the
    anchor time of its last occurrence; a hash is missing from the
    dictionary exactly when no posting of the query carries it. *)
Theorem query_dict_last_wins (q : list posting) (h : string) :
  (query_dict q !! h = None ↔ ¬ In h (map fst q)) ∧
  (∀ before t after,
     q = before ++ (h, t) :: after → ¬ In h (map fst after) →
     query_dict q !! h = Some t).
Proof.
  unfold query_dict. split.
  - rewrite eq_None_not_Some, query_fold_is_Some, lookup_empty.
    split; [tauto|]. intros Hno [[? [=]]|?]; done.
  - intros before t after -> Hafter.
    rewrite foldl_app. cbn [foldl fst snd].
    rewrite query_fold_lookup by done. apply lookup_insert_eq.
Qed.

(** *** What [scores] holds *)

Lemma insert_desc_perm {A : Type} (key : A → Z) (x : A) (l : list A) :
  Permutation (insert_desc key x l) (x :: l).
Proof.
  induction l as [|y l IH]; simpl; [done|].
  destruct (key x <? key y); [|done]. rewrite IH. apply perm_swap.
Qed.

Lemma sorted_desc_perm {A : Type} (key : A → Z) (l : list A) :
  Permutation (sorted_desc key l) l.
Proof.
  induction l as [|x l IH]; [done|].
  cbn [sorted_desc foldr]. fold (sorted_desc key l).
  by rewrite insert_desc_perm, IH.
Qed.

Lemma note_seen_fold (l : list Z) :
  ∀ seen, NoDup seen →
    NoDup (foldl note_seen seen l) ∧
    ∀ x, In x (foldl note_seen seen l) ↔ In x seen ∨ In x l.
Proof.
  induction l as [|k l IH]; intros seen Hnd; cbn [foldl].
  - split; [done|]. intros x. simpl. tauto.
  - unfold note_seen at 2 4. destruct (decide (k ∈ seen)) as [Hin|Hnin].
    + rewrite bool_decide_eq_true_2 by done.
      destruct (IH seen Hnd) as [Hnd' Hel]. split; [done|].
      intros x. rewrite Hel. simpl. apply list_elem_of_In in Hin.
      split; [tauto|]. intros [?|[<-|?]]; tauto.
    + rewrite bool_decide_eq_false_2 by done.
      assert (Hnd1 : NoDup (seen ++ [k])).
      { apply NoDup_app. split; [done|].
        split; [|repeat constructor; by intros []%elem_of_nil].
        intros x Hx [->|[]%elem_of_nil]%elem_of_cons. done. }
      destruct (IH _ Hnd1) as [Hnd' Hel]. split; [done|].
      intros x. rewrite Hel, in_app_iff. simpl. tauto.
Qed.

Lemma od_update_Forall {V : Type} (P Q : Z * V → Prop) (f : V → V)
    (dflt : V) (k : Z) (d : list (Z * V)) :
  Forall P d → (∀ e, P e → Q e) → (∀ v, P (k, v) → Q (k, f v)) →
  Q (k, f dflt) →
  Forall Q (od_update Z.eqb f dflt k d).
Proof.
  intros Hd Hweak Hupd Hnew.
  induction Hd as [|[k' v] d He Hd IH]; simpl; [by repeat constructor|].
  destruct (Z.eqb_spec k k') as [<-|Hne].
  - constructor; [by apply Hupd | by eapply Forall_impl].
  - constructor; [by apply Hweak | exact IH].
Qed.

Lemma od_update_not_nil {V : Type} (f : V → V) (dflt : V) (k : Z)
    (d : list (Z * V)) :
  od_update Z.eqb f dflt k d ≠ [].
Proof. destruct d as [|[k' v] d]; simpl; [done|]. by destruct (k =? k'). Qed.

Lemma count_deltas_facts (time_deltas : list Z) :
  Forall (λ e : Z * Z,
            e.1 mod 10 = 0 ∧ 1 ≤ e.2 ≤ Z.of_nat (length time_deltas))
         (count_deltas time_deltas) ∧
  (time_deltas ≠ [] → count_deltas time_deltas ≠ []).
Proof.
  unfold count_deltas.
  induction time_deltas as [|delta l IH] using rev_ind; [done|].
  rewrite foldl_app. cbn [foldl]. destruct IH as [IH _].
  split; [|intros _; apply od_update_not_nil].
  rewrite length_app. cbn [length].
  eapply od_update_Forall; [exact IH|..].
  - intros e [? ?]. split; [done | lia].
  - intros v [? ?]. cbn [fst snd] in *. split; [done | lia].
  - cbn [fst snd]. split; [|lia]. rewrite Z.mod_mul; lia.
Qed.

Lemma max_from_In {A : Type} (key : A → Z) (b : A) (l : list A) :
  In (max_from key b l) (b :: l).
Proof.
  destruct (max_from_split key l b) as (before & after & Heq & _).
  rewrite Heq. apply in_or_app. right. by left.
Qed.

Lemma score_media_facts media_id (time_deltas : list Z) :
  time_deltas ≠ [] →
  let e := score_media media_id time_deltas in
  se_media_id e = media_id ∧
  1 ≤ se_score e ≤ se_total_deltas e ∧
  se_time_offset e mod 10 = 0 ∧
  se_total_deltas e = Z.of_nat (length time_deltas).
Proof.
  intros Hne. cbv zeta. unfold score_media.
  destruct (count_deltas_facts time_deltas) as [Hall Hnil].
  specialize (Hnil Hne).
  destruct (count_deltas time_deltas) as [|c cs]; [done|].
  pose proof (max_from_In snd c cs) as Hin.
  rewrite Forall_forall in Hall. apply list_elem_of_In, Hall in Hin.
  destruct (max_from snd c cs) as [best_delta score].
  cbn [fst snd se_media_id se_score se_time_offset se_total_deltas] in *.
  repeat split; lia.
Qed.

Lemma record_match_groups query_fingerprints (db_matches : list (Z * string * Z)) :
  Forall (λ e : Z * list Z, e.2 ≠ [])
         (group_matches query_fingerprints db_matches) ∧
  list_sum (map (λ e : Z * list Z, length e.2)
                (group_matches query_fingerprints db_matches)) =
  length (matching_ids query_fingerprints db_matches).
Proof.
  unfold group_matches, matching_ids.
  induction db_matches as [|[[media_id hash_val] t] l [IHne IHsum]]
    using rev_ind; [by split|].
  rewrite foldl_app, List.filter_app, map_app, length_app.
  cbn [foldl List.filter fst snd]. unfold record_match at 1 3.
  destruct (query_dict query_fingerprints !! hash_val) as [qt|] eqn:Hq.
  - rewrite bool_decide_eq_true_2 by done. cbn [map length]. split.
    + eapply od_update_Forall; [exact IHne | done | |].
      * intros v _. cbn [snd]. by destruct v.
      * cbn [snd]. done.
    + rewrite <- IHsum.
      generalize (foldl (record_match query_fingerprints) [] l) as g.
      induction g as [|[k v] g IHg]; simpl; [done|].
      destruct (media_id =? k); simpl; [rewrite length_app; simpl; lia|].
      rewrite IHg. lia.
  - rewrite bool_decide_eq_false_2 by (by intros [? ?]).
    cbn [map length]. split; [done|]. rewrite IHsum. lia.
Qed.

Lemma score_entry_bounds query_fingerprints
    (db_matches : list (Z * string * Z)) (e : score_entry) :
  In e (_score_matches query_fingerprints db_matches) →
  1 ≤ se_score e ≤ se_total_deltas e ∧
  se_time_offset e mod 10 = 0 ∧
  se_total_deltas e = Z.of_nat (Z.to_nat (se_total_deltas e)) ∧
  In (se_media_id e) (first_seen (matching_ids query_fingerprints db_matches)).
Proof.
  unfold _score_matches. intros He.
  eapply Permutation_in in He; [|apply sorted_desc_perm].
  apply in_map_iff in He as (g & <- & Hg).
  destruct (record_match_groups query_fingerprints db_matches) as [Hne _].
  rewrite Forall_forall in Hne.
  destruct (score_media_facts g.1 g.2) as (Hid & Hscore & Hoff & Htot);
    [by apply Hne, list_elem_of_In|].
  split; [done|]. split; [done|]. split; [lia|].
  rewrite Hid, <- group_matches_keys. by apply in_map.
Qed.

Lemma score_totals_sum query_fingerprints
    (db_matches : list (Z * string * Z)) :
  list_sum (map (λ e, Z.to_nat (se_total_deltas e))
                (_score_matches query_fingerprints db_matches)) =
  length (matching_ids query_fingerprints db_matches).
Proof.
  unfold _score_matches.
  rewrite (sorted_desc_perm se_score
             (scores_in_order query_fingerprints db_matches)).
  destruct (record_match_groups query_fingerprints db_matches)
    as [Hne Hsum].
  rewrite <- Hsum. unfold scores_in_order. rewrite map_map.
  f_equal. apply map_ext_in. intros g Hg.
  rewrite Forall_forall in Hne.
  destruct (score_media_facts g.1 g.2) as (_ & _ & _ & ->);
    [by apply Hne, list_elem_of_In | lia].
Qed.

(** In the list [_score_matches] returns every work appears once, with a
    score of at least 1 and at most the number of its matched rows, and
    with an offset that is a multiple of 10 frames; the works are those
    of the rows whose hash the query holds, and their row counts add up
    to the number of such rows. *)
Theorem score_entries_facts query_fingerprints
    (db_matches : list (Z * string * Z)) :
  let scores := _score_matches query_fingerprints db_matches in
  NoDup (map se_media_id scores) ∧
  (∀ e, In e scores →
        1 ≤ se_score e ≤ se_total_deltas e ∧
        se_time_offset e mod 10 = 0 ∧
        In (se_media_id e) (matching_ids query_fingerprints db_matches)) ∧
  (∀ media_id, In media_id (matching_ids query_fingerprints db_matches) →
               In media_id (map se_media_id scores)) ∧
  list_sum (map (λ e, Z.to_nat (se_total_deltas e)) scores) =
    length (matching_ids query_fingerprints db_matches).
Proof.
  cbv zeta.
  destruct (note_seen_fold (matching_ids query_fingerprints db_matches) [])
    as [Hnd Hel]; [constructor|].
  fold (first_seen (matching_ids query_fingerprints db_matches)) in Hnd, Hel.
  assert (Hids : Permutation
            (map se_media_id (_score_matches query_fingerprints db_matches))
            (first_seen (matching_ids query_fingerprints db_matches))).
  { unfold _score_matches.
    by rewrite (sorted_desc_perm se_score), scores_in_order_ids. }
  split; [by rewrite Hids|]. split; [|split].
  - intros e (Hscore & Hoff & _ & Hin)%score_entry_bounds.
    split; [done|]. split; [done|]. apply Hel in Hin as [[]|?]. done.
  - intros media_id Hin. rewrite Hids. apply Hel. by right.
  - apply score_totals_sum.
Qed.

(** *** What [match_clip] hands back *)

Lemma best_in_scores query_fingerprints db_matches best :
  py_max se_score (_score_matches query_fingerprints db_matches) = Some best →
  In best (_score_matches query_fingerprints db_matches).
Proof.
  intros (before & after & Heq & _)%best_of_scores.
  unfold _score_matches.
  eapply Permutation_in; [symmetry; apply sorted_desc_perm|].
  rewrite Heq. apply in_or_app. right. by left.
Qed.

Lemma matching_ids_rows db query_fingerprints query_hashes media_id :
  In media_id
     (matching_ids query_fingerprints
        (search_fingerprints db query_hashes)) →
  ∃ p, In p (fingerprints db) ∧ f_media_id p = media_id.
Proof.
  unfold matching_ids.
  intros ([[m h] t] & <- & [Hrow _]%filter_In)%in_map_iff.
  apply in_search_fingerprints in Hrow. unfold matching_rows in Hrow.
  apply in_map_iff in Hrow as (p & [= <- _ _] & [Hp _]%filter_In).
  by exists p.
Qed.

Lemma length_matching_ids query_fingerprints (db_matches : list (Z * string * Z)) :
  (length (matching_ids query_fingerprints db_matches) ≤ length db_matches)%nat.
Proof.
  unfold matching_ids. rewrite length_map.
  induction db_matches as [|m l IH]; simpl; [lia|].
  destruct (bool_decide _); simpl; lia.
Qed.

Lemma match_fingerprints_inv db fingerprinter query_fingerprints
    min_confidence r calls :
  match_fingerprints db fingerprinter query_fingerprints min_confidence
    = (returns (Some r), calls) →
  let matches :=
    search_fingerprints db (map fst query_fingerprints) in
  ∃ best row,
    py_max se_score (_score_matches query_fingerprints matches) = Some best ∧
    min_confidence ≤ se_score best ∧
    get_media_info db (se_media_id best) = Some row ∧
    r = {| r_media_id := se_media_id best;
           r_title := m_title row;
           r_type := m_type row;
           r_season := m_season row;
           r_episode := m_episode row;
           r_confidence := se_score best;
           r_time_offset_seconds :=
             (inject_Z (se_time_offset best * hop_length fingerprinter)
              / inject_Z (sample_rate fingerprinter))%Q;
           r_total_matches := Z.of_nat (length matches) |} ∧
    calls = [call_search_fingerprints (map fst query_fingerprints);
             call_get_media_info (se_media_id best)].
Proof.
  cbv zeta. unfold match_fingerprints.
  destruct query_fingerprints as [|fp query_fingerprints]; [done|].
  set (q := fp :: query_fingerprints).
  destruct (search_fingerprints db (map fst q)) as [|m matches] eqn:Hm;
    [done|].
  destruct (py_max se_score _) as [best|]; [|done].
  destruct (Z.ltb_spec (se_score best) min_confidence); [done|].
  destruct (get_media_info db (se_media_id best)) as [row|] eqn:Hrow;
    [|done].
  intros [= <- <-]. exists best, row. by repeat split.
Qed.

(** A result [match_clip] returns has a confidence of at least
    [min_confidence] and at least 1, never above the number of rows the
    search returned; its title, type, season and episode are those of the
    catalogue row of its [media_id]; its offset in seconds is that of a
    whole multiple of 10 frames; and the store was asked exactly twice:
    the search, then [get_media_info] for the work returned. *)
Theorem match_result_facts db fingerprinter query_fingerprints
    min_confidence r calls :
  match_fingerprints db fingerprinter query_fingerprints min_confidence
    = (returns (Some r), calls) →
  min_confidence ≤ r_confidence r ∧
  1 ≤ r_confidence r ≤ r_total_matches r ∧
  (∃ row, get_media_info db (r_media_id r) = Some row ∧
          m_id row = r_media_id r ∧
          r_title r = m_title row ∧ r_type r = m_type row ∧
          r_season r = m_season row ∧ r_episode r = m_episode row) ∧
  (∃ bucket, bucket mod 10 = 0 ∧
     r_time_offset_seconds r =
       (inject_Z (bucket * hop_length fingerprinter)
        / inject_Z (sample_rate fingerprinter))%Q) ∧
  calls = [call_search_fingerprints (map fst query_fingerprints);
           call_get_media_info (r_media_id r)].
Proof.
  intros (best & row & Hbest & Hconf & Hrow & -> & ->)%match_fingerprints_inv.
  cbn [r_media_id r_title r_type r_season r_episode r_confidence
       r_time_offset_seconds r_total_matches].
  apply best_in_scores in Hbest.
  pose proof (score_totals_sum query_fingerprints
                (search_fingerprints db (map fst query_fingerprints)))
    as Hsum.
  destruct (score_entry_bounds _ _ _ Hbest)
    as ((Hone & Htotal) & Hoff & _).
  split; [done|]. split; [|split; [|split; [|done]]].
  - split; [done|].
    pose proof (length_matching_ids query_fingerprints
                  (search_fingerprints db (map fst query_fingerprints))).
    assert (Hle : (Z.to_nat (se_total_deltas best) ≤
                   list_sum (map (λ e, Z.to_nat (se_total_deltas e))
                      (_score_matches query_fingerprints
                         (search_fingerprints db
                            (map fst query_fingerprints)))))%nat).
    { revert Hbest. generalize (_score_matches query_fingerprints
        (search_fingerprints db (map fst query_fingerprints))) as l.
      induction l as [|e l IH]; simpl; [done|].
      intros [->|Hin]; [lia|]. specialize (IH Hin). lia. }
    lia.
  - exists row. split; [done|]. split; [|done].
    unfold get_media_info in Hrow.
    by apply find_some in Hrow as [_ Heq%Z.eqb_eq].
  - by exists (se_time_offset best).
Qed.

Lemma match_result_facts_witness :
  ∃ r calls,
    match_fingerprints tied_catalogue default movie_postings 5
      = (returns (Some r), calls) ∧
    (5 ≤ r_confidence r ∧
     1 ≤ r_confidence r ≤ r_total_matches r ∧
     (∃ row, get_media_info tied_catalogue (r_media_id r) = Some row ∧
             m_id row = r_media_id r ∧
             r_title r = m_title row ∧ r_type r = m_type row ∧
             r_season r = m_season row ∧ r_episode r = m_episode row) ∧
     (∃ bucket, bucket mod 10 = 0 ∧
        r_time_offset_seconds r =
          (inject_Z (bucket * hop_length default)
           / inject_Z (sample_rate default))%Q) ∧
     calls = [call_search_fingerprints (map fst movie_postings);
              call_get_media_info (r_media_id r)]).
Proof.
  eexists _, _. split; [vm_compute; reflexivity|].
  eapply (match_result_facts tied_catalogue default movie_postings 5).
  vm_compute. reflexivity.
Defined.

(** [match_clip] does not fail on a catalogue whose postings all point at
    works: the row of the best work is there to be read.  Every catalogue
    [build_database] makes from an empty store is such a catalogue. *)
Theorem match_never_raises :
  (∀ db fingerprinter query_fingerprints min_confidence,
     references_ok db →
     (match_fingerprints db fingerprinter query_fingerprints
        min_confidence).1 ≠ raises_TypeError) ∧
  (∀ audio_files fingerprinter query_fingerprints min_confidence,
     (match_fingerprints (build_database create audio_files) fingerprinter
        query_fingerprints min_confidence).1 ≠ raises_TypeError).
Proof.
  assert (Hmain : ∀ db fingerprinter query_fingerprints min_confidence,
     references_ok db →
     (match_fingerprints db fingerprinter query_fingerprints
        min_confidence).1 ≠ raises_TypeError).
  { intros db fingerprinter q min_confidence Href. unfold match_fingerprints.
    destruct q as [|fp q]; [done|]. set (q' := fp :: q).
    destruct (search_fingerprints db (map fst q')) as [|m matches] eqn:Hm;
      [done|].
    destruct (py_max se_score _) as [best|] eqn:Hbest; [|done].
    destruct (se_score best <? min_confidence); [done|].
    destruct (get_media_info db (se_media_id best)) as [row|] eqn:Hrow;
      [done|]. exfalso.
    apply best_in_scores in Hbest.
    destruct (score_entry_bounds _ _ _ Hbest) as (_ & _ & _ & Hid).
    destruct (note_seen_fold (matching_ids q' (m :: matches)) [])
      as [_ Hel]; [constructor|].
    apply Hel in Hid as [[]|Hid].
    rewrite <- Hm in Hid.
    apply matching_ids_rows in Hid as (p & Hp & Hpid).
    destruct (Href p Hp) as (r & Hr & Hrid).
    unfold get_media_info in Hrow.
    eapply find_none in Hrow; [|exact Hr].
    apply Z.eqb_neq in Hrow. congruence. }
  split; [exact Hmain|].
  intros audio_files fingerprinter q min_confidence. apply Hmain.
  by destruct (build_database_catalogue_ok audio_files create
                 create_catalogue_ok) as ((_ & _ & _ & Href) & _).
Qed.

(** *** A work is recognised from its own postings *)

Lemma query_dict_NoDup (q : list posting) (h : string) (t : Z) :
  NoDup (map fst q) → In (h, t) q → query_dict q !! h = Some t.
Proof.
  intros Hnd (before & after & ->)%in_split.
  rewrite map_app in Hnd. apply NoDup_app in Hnd as (_ & _ & Hnd).
  cbn [map fst] in Hnd. apply NoDup_cons in Hnd as [Hnotin _].
  unfold query_dict. rewrite foldl_app. cbn [foldl fst snd].
  rewrite query_fold_lookup by (by intros ?%list_elem_of_In).
  apply lookup_insert_eq.
Qed.

Lemma record_own_rows (q : list posting) (media_id : Z) (rows : list posting) :
  (∀ fp, In fp rows → query_dict q !! fp.1 = Some fp.2) →
  ∀ l, foldl (record_match q) [(media_id, l)]
             (map (λ fp : posting, (media_id, fp.1, fp.2)) rows) =
       [(media_id, l ++ replicate (length rows) 0)].
Proof.
  induction rows as [|fp rows IH]; intros Hq l; simpl.
  - by rewrite app_nil_r.
  - rewrite (Hq fp) by (by left). cbn [od_update].
    rewrite Z.eqb_refl, Z.sub_diag, IH by (intros ? ?; apply Hq; by right).
    by rewrite <- app_assoc.
Qed.

Lemma group_own_rows (q : list posting) (media_id : Z) (fp : posting)
    (rows : list posting) :
  (∀ fp', In fp' (fp :: rows) → query_dict q !! fp'.1 = Some fp'.2) →
  group_matches q (map (λ fp : posting, (media_id, fp.1, fp.2)) (fp :: rows)) =
  [(media_id, replicate (S (length rows)) 0)].
Proof.
  intros Hq. unfold group_matches. cbn [map foldl].
  assert (Hfirst : record_match q [] (media_id, fp.1, fp.2) =
                   [(media_id, [0])]).
  { unfold record_match. rewrite (Hq fp) by (by left).
    cbn [od_update app]. by rewrite Z.sub_diag. }
  rewrite Hfirst, record_own_rows by (intros ? ?; apply Hq; by right).
  done.
Qed.

Lemma count_zero_deltas (n : nat) :
  ∀ c, foldl (λ delta_counts delta,
                od_update Z.eqb (λ c, c + 1) 0 (round_div10 delta * 10)
                          delta_counts)
             [(0, c)] (replicate n 0) = [(0, c + Z.of_nat n)].
Proof.
  induction n as [|n IH]; intros c; simpl; [by rewrite Z.add_0_r|].
  rewrite IH. do 2 f_equal. lia.
Qed.

Lemma score_own_rows media_id (n : nat) :
  score_media media_id (replicate (S n) 0) =
  {| se_media_id := media_id; se_score := Z.of_nat (S n);
     se_time_offset := 0; se_total_deltas := Z.of_nat (S n) |}.
Proof.
  unfold score_media, count_deltas. rewrite length_replicate.
  cbn [replicate foldl].
  change (od_update Z.eqb (λ c, c + 1) 0 (round_div10 0 * 10) [])
    with [(0, 1)].
  rewrite count_zero_deltas. cbn [max_from].
  f_equal. lia.
Qed.

Lemma filter_all {A : Type} (f : A → bool) (l : list A) :
  (∀ x, In x l → f x = true) → List.filter f l = l.
Proof.
  induction l as [|a l IH]; intros Hf; simpl; [done|].
  rewrite (Hf a) by by left. f_equal. apply IH. intros x Hx. apply Hf.
  by right.
Qed.

Lemma match_fingerprints_single db fingerprinter query_fingerprints
    min_confidence matches e row :
  query_fingerprints ≠ [] →
  search_fingerprints db (map fst query_fingerprints) = matches →
  matches ≠ [] →
  _score_matches query_fingerprints matches = [e] →
  min_confidence ≤ se_score e →
  get_media_info db (se_media_id e) = Some row →
  match_fingerprints db fingerprinter query_fingerprints min_confidence =
  (returns
     (Some {| r_media_id := se_media_id e;
              r_title := m_title row;
              r_type := m_type row;
              r_season := m_season row;
              r_episode := m_episode row;
              r_confidence := se_score e;
              r_time_offset_seconds :=
                (inject_Z (se_time_offset e * hop_length fingerprinter)
                 / inject_Z (sample_rate fingerprinter))%Q;
              r_total_matches := Z.of_nat (length matches) |}),
   [call_search_fingerprints (map fst query_fingerprints);
    call_get_media_info (se_media_id e)]).
Proof.
  intros Hq Hsearch Hm Hscores Hconf Hrow. unfold match_fingerprints.
  destruct query_fingerprints as [|fp q]; [done|].
  rewrite Hsearch. destruct matches as [|m ms]; [done|].
  rewrite Hscores. cbn [py_max max_from].
  destruct (Z.ltb_spec (se_score e) min_confidence); [lia|].
  by rewrite Hrow.
Qed.

(** Self-identification.  Ingest a work from a new path, with postings
    whose hashes are pairwise distinct and carried by no other work of
    the catalogue; then query with those same postings and a threshold
    they reach.  [match_clip] returns that work, with its title, a
    confidence equal to the number of postings, and offset zero. *)
Theorem ingested_work_matches_itself db md file_path fps fingerprinter
    min_confidence :
  ids_bounded db → ¬ path_taken db file_path →
  (∀ p, In p (fingerprints db) → ¬ In (f_hash p) (map fst fps)) →
  NoDup (map fst fps) → fps ≠ [] →
  min_confidence ≤ Z.of_nat (length fps) →
  let media_id := (ingest db md file_path fps).1 in
  let db' := (ingest db md file_path fps).2 in
  ∃ r,
    match_fingerprints db' fingerprinter fps min_confidence =
      (returns (Some r),
       [call_search_fingerprints (map fst fps);
        call_get_media_info media_id]) ∧
    r_media_id r = media_id ∧
    r_title r = md_title md ∧
    r_confidence r = Z.of_nat (length fps) ∧
    r_total_matches r = Z.of_nat (length fps) ∧
    (r_time_offset_seconds r == 0)%Q.
Proof.
  intros Hb Hfree Hother Hnd Hne Hconf. cbv zeta.
  assert (Hb' := Hb). destruct Hb' as [Hm _].
  unfold ingest, add_media.
  rewrite (find_path_None db file_path Hfree). cbn [fst snd].
  set (media_id := media_seq db + 1).
  set (row := {| m_id := media_id; m_title := md_title md;
                 m_type := md_type md; m_season := md_season md;
                 m_episode := md_episode md; m_file_path := file_path;
                 m_fingerprint_count := 0 |}).
  set (db1 := {| media := media db ++ [row];
                 fingerprints := fingerprints db;
                 media_seq := media_id;
                 fingerprints_seq := fingerprints_seq db |}).
  assert (Hstored : matching_rows (add_fingerprints db1 media_id fps)
                      (map fst fps) =
                    map (λ fp : posting, (media_id, fp.1, fp.2)) fps).
  { rewrite matching_rows_add_fingerprints. unfold matching_rows, rows_for.
    cbn [fingerprints db1].
    rewrite filter_none, filter_all; [done| |].
    - intros fp Hfp. apply bool_decide_eq_true_2, list_elem_of_In.
      by apply in_map.
    - intros p Hp. apply bool_decide_eq_false_2.
      intros Hin%list_elem_of_In. by apply (Hother p). }
  destruct (Permutation_map_inv (λ fp : posting, (media_id, fp.1, fp.2)) fps
              (sort_by_hash_perm
                 (map (λ fp : posting, (media_id, fp.1, fp.2)) fps)))
    as (fps' & Hsorted & Hperm).
  set (rows := map (λ fp : posting, (media_id, fp.1, fp.2)) fps').
  assert (Hsearch : search_fingerprints (add_fingerprints db1 media_id fps)
                      (map fst fps) = rows).
  { by rewrite search_fingerprints_rows, Hstored, Hsorted. }
  assert (Hlen : length fps' = length fps)
    by (symmetry; by apply Permutation_length).
  assert (Hne' : fps' ≠ []) by (intros ->; by destruct fps).
  assert (Hrow : get_media_info (add_fingerprints db1 media_id fps) media_id
                 = Some (set_fingerprint_count (Z.of_nat (length fps))
                           media_id row)).
  { unfold get_media_info, add_fingerprints. cbn [media db1].
    rewrite find_id_set_fingerprint_count, find_app_None
      by (apply (find_id_None _ _ (media_seq db)); [done | unfold media_id; lia]).
    cbn [List.find m_id row]. by rewrite Z.eqb_refl. }
  assert (Hscores : _score_matches fps rows =
                    [{| se_media_id := media_id;
                        se_score := Z.of_nat (length fps);
                        se_time_offset := 0;
                        se_total_deltas := Z.of_nat (length fps) |}]).
  { assert (Hq : ∀ fp', In fp' fps' → query_dict fps !! fp'.1 = Some fp'.2).
    { intros [h t] Hin. apply query_dict_NoDup; [done|].
      by apply (Permutation_in _ (Permutation_sym Hperm)). }
    rewrite <- Hlen. clear Hsearch Hstored Hsorted Hperm Hlen.
    unfold _score_matches, scores_in_order, rows.
    destruct fps' as [|fp rest]; [done|].
    transitivity
      (sorted_desc se_score
         (map (λ e : Z * list Z, score_media e.1 e.2)
              [(media_id, replicate (S (length rest)) 0)])).
    { do 2 f_equal. apply (group_own_rows fps media_id fp rest Hq). }
    cbn [map fst snd sorted_desc foldr insert_desc length].
    by rewrite score_own_rows. }
  assert (Hrows : rows ≠ []) by (unfold rows; by destruct fps').
  rewrite (match_fingerprints_single _ fingerprinter fps min_confidence
             rows _ _ Hne Hsearch Hrows Hscores Hconf Hrow).
  eexists. split; [reflexivity|].
  cbn [r_media_id r_title r_confidence r_total_matches r_time_offset_seconds
       se_media_id se_score se_time_offset].
  split; [done|]. split.
  { unfold set_fingerprint_count. by destruct (m_id row =? media_id). }
  split; [done|]. split; [unfold rows; by rewrite length_map, Hlen|].
  rewrite Z.mul_0_l. unfold Qeq, Qdiv, Qmult, Qinv, inject_Z. simpl.
  by destruct (sample_rate fingerprinter).
Qed.

Lemma ingested_work_matches_itself_witness :
  ids_bounded create ∧ ¬ path_taken create movie_path ∧
  (∀ p, In p (fingerprints create) →
        ¬ In (f_hash p) (map fst movie_postings)) ∧
  NoDup (map fst movie_postings) ∧ movie_postings ≠ [] ∧
  3 ≤ Z.of_nat (length movie_postings) ∧
  (let media_id :=
     (ingest create movie_metadata movie_path movie_postings).1 in
   let db' := (ingest create movie_metadata movie_path movie_postings).2 in
   ∃ r,
     match_fingerprints db' default movie_postings 3 =
       (returns (Some r),
        [call_search_fingerprints (map fst movie_postings);
         call_get_media_info media_id]) ∧
     r_media_id r = media_id ∧
     r_title r = md_title movie_metadata ∧
     r_confidence r = Z.of_nat (length movie_postings) ∧
     r_total_matches r = Z.of_nat (length movie_postings) ∧
     (r_time_offset_seconds r == 0)%Q).
Proof.
  assert (H1 : ids_bounded create) by apply create_consistent.
  assert (H2 : ¬ path_taken create movie_path) by (by intros []).
  assert (H3 : ∀ p, In p (fingerprints create) →
                    ¬ In (f_hash p) (map fst movie_postings))
    by (by intros p []).
  assert (H4 : NoDup (map fst movie_postings)).
  { apply (bool_decide_unpack _). by vm_compute. }
  assert (H5 : movie_postings ≠ []) by done.
  assert (H6 : 3 ≤ Z.of_nat (length movie_postings)) by (simpl; lia).
  do 6 (split; [assumption|]).
  apply (ingested_work_matches_itself create movie_metadata movie_path
           movie_postings default 3 H1 H2 H3 H4 H5 H6).
Defined.

(** ** app.py *)

Lemma last_dot_None (s : string) :
  last_dot s = None ↔ contains_char "."%char s = false.
Proof.
  induction s as [|c s IH]; simpl; [done|].
  destruct (last_dot s) as [[b a]|].
  - split; [done|]. intros [_ Hs]%orb_false_elim.
    by apply IH in Hs.
  - destruct (Ascii.eqb c "."%char); simpl; [done|]. tauto.
Qed.

Lemma last_dot_Some (s before after : string) :
  last_dot s = Some (before, after) ↔
  s = before +:+ "." +:+ after ∧ contains_char "."%char after = false.
Proof.
  revert before. induction s as [|c s IH]; intros before; simpl.
  - split; [done|]. intros [Heq _]. by destruct before.
  - destruct (last_dot s) as [[b a]|] eqn:Hs.
    + split.
      * intros [= <- <-]. destruct (proj1 (IH b) eq_refl) as [-> Ha].
        by rewrite append_cons.
      * intros [Heq Ha]. destruct before as [|c' before'].
        -- change (String c s = String "." after) in Heq.
           injection Heq as -> ->.
           apply last_dot_None in Ha. congruence.
        -- rewrite append_cons in Heq. injection Heq as <- Heq.
           assert (Hs' : Some (b, a) = Some (before', after))
             by (by apply IH).
           by injection Hs' as -> ->.
    + apply last_dot_None in Hs as Hnodot.
      destruct (Ascii.eqb_spec c "."%char) as [->|Hc].
      * split.
        -- intros [= <- <-]. done.
        -- intros [Heq Ha]. destruct before as [|c' before'].
           ++ change (String "." s = String "." after) in Heq.
              by injection Heq as ->.
           ++ rewrite append_cons in Heq. injection Heq as <- ->.
              rewrite contains_char_app in Hnodot. simpl in Hnodot.
              by rewrite orb_true_r in Hnodot.
      * split; [done|]. intros [Heq Ha]. destruct before as [|c' before'].
        -- change (String c s = String "." after) in Heq.
           by injection Heq as -> _.
        -- rewrite append_cons in Heq. injection Heq as <- ->.
           rewrite contains_char_app in Hnodot. simpl in Hnodot.
           by rewrite orb_true_r in Hnodot.
Qed.

(** [allowed_file] accepts a name exactly when what follows its last
    ['.'] is, letter case aside, [mp3], [wav] or [m4a]: a name without a
    ['.'] is refused, earlier extensions do not count, and nothing is
    asked of the text before the last ['.'] (it may be empty). *)
Theorem allowed_file_exactly (filename : string) :
  allowed_file filename = true ↔
  ∃ stem ext,
    filename = stem +:+ "." +:+ ext ∧
    contains_char "."%char ext = false ∧
    In (lower ext) ["mp3"; "wav"; "m4a"].
Proof.
  unfold allowed_file, rsplit_dot. rewrite andb_true_iff.
  destruct (last_dot filename) as [[before after]|] eqn:Hdot.
  - apply last_dot_Some in Hdot as [-> Hafter]. cbn [nth].
    rewrite bool_decide_eq_true, list_elem_of_In. split.
    + intros [_ Hin]. by exists before, after.
    + intros (stem & ext & Heq & Hext & Hin).
      assert (Hsame : Some (before, after) = Some (stem, ext)).
      { rewrite <- (proj2 (last_dot_Some (before +:+ "." +:+ after)
                             before after)) by done.
        by apply last_dot_Some. }
      injection Hsame as -> ->. split; [|done].
      rewrite !contains_char_app. simpl. by rewrite orb_true_r.
  - apply last_dot_None in Hdot. rewrite Hdot. split; [by intros [? _]|].
    intros (stem & ext & -> & _ & _).
    rewrite !contains_char_app in Hdot. simpl in Hdot.
    by rewrite orb_true_r in Hdot.
Qed.

Example allowed_file_samples :
  allowed_file "clip.MP3" = true ∧ allowed_file ".wav" = true ∧
  allowed_file "clip.mp3.exe" = false ∧ allowed_file "mp3" = false ∧
  allowed_file "clip." = false.
Proof. by vm_compute. Qed.

(** *** Works the query has nothing in common with *)

Lemma get_media_info_other_ids db md file_path fps other :
  ¬ path_taken db file_path → other ≠ media_seq db + 1 →
  get_media_info (ingest db md file_path fps).2 other =
  get_media_info db other.
Proof.
  intros Hfree Hother. unfold ingest, add_media.
  rewrite (find_path_None db file_path Hfree). cbn [fst snd].
  unfold get_media_info, add_fingerprints. cbn [media].
  rewrite find_id_set_fingerprint_count.
  destruct (List.find (λ r, m_id r =? other) (media db)) as [r|] eqn:Hfind.
  - apply find_some in Hfind as Hr. destruct Hr as [_ Heq%Z.eqb_eq].
    assert (Hfound : ∀ tail, List.find (λ r, m_id r =? other)
                               (media db ++ tail) = Some r).
    { intros tail. revert Hfind. generalize (media db) as l.
      induction l as [|a l IH]; simpl; [done|].
      destruct (m_id a =? other); [done | exact IH]. }
    rewrite Hfound. cbn [fmap option_fmap option_map]. f_equal.
    unfold set_fingerprint_count.
    destruct (Z.eqb_spec (m_id r) (media_seq db + 1)); [lia | done].
  - rewrite find_app_None by done. cbn [List.find m_id].
    destruct (Z.eqb_spec (media_seq db + 1) other); [lia | done].
Qed.

Lemma search_after_unrelated_ingest db md file_path fps query_hashes :
  (∀ fp, In fp fps → ¬ In fp.1 query_hashes) →
  search_fingerprints (ingest db md file_path fps).2 query_hashes =
  search_fingerprints db query_hashes.
Proof.
  intros Hdisjoint. unfold ingest.
  destruct (add_media db _ _ _ _ _) as [media_id db1] eqn:Hadd.
  assert (Hfps : fingerprints db1 = fingerprints db).
  { unfold add_media in Hadd. destruct (List.find _ _); by injection Hadd as _ <-. }
  cbn [snd].
  rewrite !search_fingerprints_rows, matching_rows_add_fingerprints.
  unfold rows_for. rewrite filter_none, app_nil_r.
  - unfold matching_rows. by rewrite Hfps.
  - intros fp Hfp. apply bool_decide_eq_false_2.
    intros Hin%list_elem_of_In. by apply (Hdisjoint fp).
Qed.

(** Ingesting a work from a new path, none of whose hashes the query
    holds, changes nothing for that query: [match_clip] gives the same
    result and makes the same calls as before. *)
Theorem unrelated_work_changes_nothing db md file_path fps fingerprinter
    query_fingerprints min_confidence :
  ids_bounded db → ¬ path_taken db file_path →
  (∀ fp, In fp fps → ¬ In fp.1 (map fst query_fingerprints)) →
  match_fingerprints (ingest db md file_path fps).2 fingerprinter
    query_fingerprints min_confidence =
  match_fingerprints db fingerprinter query_fingerprints min_confidence.
Proof.
  intros [_ Hf] Hfree Hdisjoint. unfold match_fingerprints.
  destruct query_fingerprints as [|fp q]; [done|].
  rewrite (search_after_unrelated_ingest db md file_path fps _ Hdisjoint).
  destruct (search_fingerprints db (map fst (fp :: q)))
    as [|m matches] eqn:Hm; [done|].
  destruct (py_max se_score _) as [best|] eqn:Hbest; [|done].
  destruct (se_score best <? min_confidence); [done|].
  rewrite get_media_info_other_ids; [done | done |].
  apply best_in_scores, score_entry_bounds in Hbest as (_ & _ & _ & Hid).
  destruct (note_seen_fold (matching_ids (fp :: q) (m :: matches)) [])
    as [_ Hel]; [constructor|].
  apply Hel in Hid as [[]|Hid]. rewrite <- Hm in Hid.
  apply matching_ids_rows in Hid as (p & Hp%Hf & Hpid). lia.
Qed.

Lemma unrelated_work_changes_nothing_witness :
  ids_bounded beta_catalogue ∧ ¬ path_taken beta_catalogue alpha_path ∧
  (∀ fp, In fp alpha_postings → ¬ In fp.1 (map fst beta_postings)) ∧
  match_fingerprints
    (ingest beta_catalogue movie_metadata alpha_path alpha_postings).2
    default beta_postings 5 =
  match_fingerprints beta_catalogue default beta_postings 5.
Proof.
  assert (H1 : ids_bounded beta_catalogue).
  { apply (ingest_fresh_consistent create movie_metadata beta_path
             beta_postings); [apply create_consistent.. | by intros []]. }
  assert (H2 : ¬ path_taken beta_catalogue alpha_path).
  { intros H. vm_compute in H. by destruct H as [H|[]]. }
  assert (H3 : ∀ fp, In fp alpha_postings →
                     ¬ In fp.1 (map fst beta_postings)).
  { intros fp Hfp Hin. vm_compute in Hfp, Hin.
    repeat (destruct Hfp as [<-|Hfp]; [cbn [fst] in Hin;
      by repeat (destruct Hin as [Hin|Hin]; [discriminate Hin|])|]).
    done. }
  split; [exact H1|]. split; [exact H2|]. split; [exact H3|].
  apply (unrelated_work_changes_nothing beta_catalogue movie_metadata
           alpha_path alpha_postings default beta_postings 5 H1 H2 H3).
Defined.

(** One run over one file on an empty store leaves the counts exact. *)
Lemma build_database_distinct_paths_witness :
  ids_bounded create ∧ posting_count_consistent create ∧
  NoDup (map af_path [movie_file]) ∧
  (∀ af, In af [movie_file] → ¬ path_taken create (af_path af)) ∧
  posting_count_consistent (build_database create [movie_file]).
Proof.
  assert (H1 : ids_bounded create) by apply create_consistent.
  assert (H2 : posting_count_consistent create) by apply create_consistent.
  assert (H3 : NoDup (map af_path [movie_file])).
  { repeat constructor. by intros []%elem_of_nil. }
  assert (H4 : ∀ af, In af [movie_file] → ¬ path_taken create (af_path af))
    by (by intros af _ []).
  split; [exact H1|]. split; [exact H2|]. split; [exact H3|].
  split; [exact H4|].
  apply (build_database_distinct_paths [movie_file] create H1 H2 H3 H4).
Defined.

(** *** The properties above at sample inputs *)

Lemma generate_hashes_count_witness :
  (length [((1%Z, 1%Z) : peak)] ≤ 1)%nat ∧
  generate_hashes (λ s, s) default [((1, 1) : peak)] = [].
Proof.
  assert (H : (length [((1%Z, 1%Z) : peak)] ≤ 1)%nat) by (simpl; lia).
  split; [exact H|].
  exact (proj2 (generate_hashes_count (λ s, s) default [((1, 1) : peak)]) H).
Defined.

Lemma query_dict_last_wins_witness :
  [("a", 1); ("b", 2); ("a", 3)] = [("a", 1); ("b", 2)] ++ ("a", 3) :: [] ∧
  ¬ In "a" (map fst ([] : list posting)) ∧
  query_dict [("a", 1); ("b", 2); ("a", 3)] !! "a" = Some 3.
Proof.
  assert (H1 : [("a", 1); ("b", 2); ("a", 3)] =
               [("a", 1); ("b", 2)] ++ (("a", 3) : posting) :: [])
    by reflexivity.
  assert (H2 : ¬ In "a" (map fst ([] : list posting))) by (by intros []).
  split; [exact H1|]. split; [exact H2|].
  exact (proj2 (query_dict_last_wins [("a", 1); ("b", 2); ("a", 3)] "a")
           [("a", 1); ("b", 2)] 3 [] H1 H2).
Defined.

Lemma match_never_raises_witness :
  references_ok tied_catalogue ∧
  (match_fingerprints tied_catalogue default movie_postings 5).1 ≠
    raises_TypeError.
Proof.
  assert (H : references_ok tied_catalogue).
  { assert (Hall : forallb (λ p, existsb (λ r, m_id r =? f_media_id p)
                                    (media tied_catalogue))
                           (fingerprints tied_catalogue) = true)
      by (vm_compute; reflexivity).
    intros p Hp. rewrite forallb_forall in Hall.
    apply Hall, existsb_exists in Hp as (r & Hr & Heq%Z.eqb_eq).
    by exists r. }
  split; [exact H|].
  exact (proj1 match_never_raises tied_catalogue default movie_postings 5 H).
Defined.
